(** * lazyjira: the interactive ticket form and its hand-off to Jira

    A shallow embedding of [main.go].  The program is a bubbletea model
    wrapping a two-field huh form; when the terminal program returns,
    [main] builds a Jira issue from two package-level string variables the
    form fields are bound to.

    The file has three layers:
    - the parts of the libraries the program drives (bubbletea messages and
      its event loop, lipgloss styles, the huh form), kept to the behaviour
      [main.go] relies on;
    - the program itself ([NewStyles], [NewModel], [Init], [Update], [View],
      [main]), transcribed function by function;
    - the properties. *)

From Stdlib Require Import ZArith String Ascii List Bool Lia.
From stdpp Require Import base option list strings.
Import ListNotations.
Open Scope string_scope.
Open Scope Z_scope.

(** ** Go's [int]

    [int] is 64 bits wide on the platforms the program targets; arithmetic
    wraps around. *)

Definition wrap_int (z : Z) : Z :=
  (z + 2 ^ 63) mod 2 ^ 64 - 2 ^ 63.

Definition int_sub (a b : Z) : Z := wrap_int (a - b).

(** ** bubbletea: messages and commands *)

Module tea.

(** The key types that occur in this development.  [KeySpace] carries the
    rune [" "], the other named keys carry no runes. *)
Inductive KeyType :=
| KeyRunes | KeySpace | KeyEnter | KeyTab | KeyShiftTab
| KeyEsc | KeyCtrlC | KeyBackspace.

(** A key press.  One [KeyRunes] message can carry several runes: the
    input reader groups the printable characters it reads in one go
    (pasted or quickly typed text). *)
Record Key := { Type_ : KeyType; Runes : string }.

(** Strings are Go strings, that is UTF-8: [Runes] holds the encoding of
    the key's runes, and [Key.String] below is [string(k.Runes)]. *)

(** [Key.String]: the runes themselves for [KeyRunes], the key name
    otherwise. *)
Definition Key_String (k : Key) : string :=
  match Type_ k with
  | KeyRunes => Runes k
  | KeySpace => " "
  | KeyEnter => "enter"
  | KeyTab => "tab"
  | KeyShiftTab => "shift+tab"
  | KeyEsc => "esc"
  | KeyCtrlC => "ctrl+c"
  | KeyBackspace => "backspace"
  end.

(** [tea.Msg] is the empty interface; these are the messages that reach
    the model of this program: the two terminal events, the runtime's
    [QuitMsg], and the navigation messages huh sends to itself. *)
Inductive Msg :=
| WindowSizeMsg (Width Height : Z)
| KeyMsg (k : Key)
| QuitMsg
| nextFieldMsg
| prevFieldMsg
| nextGroupMsg
| prevGroupMsg.

(** A [tea.Cmd] is a function that yields one message; it is represented
    by the message it yields.  A nil command is an absent list element and
    [tea.Batch] is the list of its non-nil commands. *)
Definition Cmd := Msg.

Definition Quit : Cmd := QuitMsg.

Definition is_KeyMsg (msg : Msg) : bool :=
  match msg with KeyMsg _ => true | _ => false end.

(** [key.Matches] of bubbles: the message's string is one of the
    binding's keys. *)
Definition Matches (k : Key) (keys : list string) : bool :=
  existsb (String.eqb (Key_String k)) keys.

End tea.

(** ** lipgloss: styles *)

Module lipgloss.

Inductive Color :=
| AdaptiveColor (Light Dark : string)
| ANSIColor (code : string).

Inductive Border := RoundedBorder.

Inductive Position := Left | Center | Right.

Inductive WhitespaceOption :=
| WithWhitespaceChars (s : string)
| WithWhitespaceForeground (c : Color).

(** The renderer a style is created from. *)
Inductive Renderer := DefaultRenderer.

Record Style := {
  renderer : Renderer;
  foreground : option Color;
  bold : bool;
  paddingTop : Z; paddingRight : Z; paddingBottom : Z; paddingLeft : Z;
  marginTop : Z; marginRight : Z; marginBottom : Z; marginLeft : Z;
  border : option Border;
  borderForeground : option Color
}.

Definition NewStyle (lg : Renderer) : Style :=
  {| renderer := lg; foreground := None; bold := false;
     paddingTop := 0; paddingRight := 0; paddingBottom := 0; paddingLeft := 0;
     marginTop := 0; marginRight := 0; marginBottom := 0; marginLeft := 0;
     border := None; borderForeground := None |}.

(** [Padding] with four arguments: top, right, bottom, left. *)
Definition Padding (t r b l : Z) (s : Style) : Style :=
  {| renderer := renderer s; foreground := foreground s; bold := bold s;
     paddingTop := t; paddingRight := r; paddingBottom := b; paddingLeft := l;
     marginTop := marginTop s; marginRight := marginRight s;
     marginBottom := marginBottom s; marginLeft := marginLeft s;
     border := border s; borderForeground := borderForeground s |}.

Definition PaddingLeft (l : Z) (s : Style) : Style :=
  Padding (paddingTop s) (paddingRight s) (paddingBottom s) l s.

Definition MarginTop (t : Z) (s : Style) : Style :=
  {| renderer := renderer s; foreground := foreground s; bold := bold s;
     paddingTop := paddingTop s; paddingRight := paddingRight s;
     paddingBottom := paddingBottom s; paddingLeft := paddingLeft s;
     marginTop := t; marginRight := marginRight s;
     marginBottom := marginBottom s; marginLeft := marginLeft s;
     border := border s; borderForeground := borderForeground s |}.

Definition Foreground (c : Color) (s : Style) : Style :=
  {| renderer := renderer s; foreground := Some c; bold := bold s;
     paddingTop := paddingTop s; paddingRight := paddingRight s;
     paddingBottom := paddingBottom s; paddingLeft := paddingLeft s;
     marginTop := marginTop s; marginRight := marginRight s;
     marginBottom := marginBottom s; marginLeft := marginLeft s;
     border := border s; borderForeground := borderForeground s |}.

Definition Bold (b : bool) (s : Style) : Style :=
  {| renderer := renderer s; foreground := foreground s; bold := b;
     paddingTop := paddingTop s; paddingRight := paddingRight s;
     paddingBottom := paddingBottom s; paddingLeft := paddingLeft s;
     marginTop := marginTop s; marginRight := marginRight s;
     marginBottom := marginBottom s; marginLeft := marginLeft s;
     border := border s; borderForeground := borderForeground s |}.

Definition WithBorder (b : Border) (s : Style) : Style :=
  {| renderer := renderer s; foreground := foreground s; bold := bold s;
     paddingTop := paddingTop s; paddingRight := paddingRight s;
     paddingBottom := paddingBottom s; paddingLeft := paddingLeft s;
     marginTop := marginTop s; marginRight := marginRight s;
     marginBottom := marginBottom s; marginLeft := marginLeft s;
     border := Some b; borderForeground := borderForeground s |}.

Definition BorderForeground (c : Color) (s : Style) : Style :=
  {| renderer := renderer s; foreground := foreground s; bold := bold s;
     paddingTop := paddingTop s; paddingRight := paddingRight s;
     paddingBottom := paddingBottom s; paddingLeft := paddingLeft s;
     marginTop := marginTop s; marginRight := marginRight s;
     marginBottom := marginBottom s; marginLeft := marginLeft s;
     border := border s; borderForeground := Some c |}.

(** [Copy] returns the style itself (styles are values). *)
Definition Copy (s : Style) : Style := s.

(** A border set with [Border(b)] and no side selection is drawn on all
    four sides, one cell wide. *)
Definition GetHorizontalBorderSize (s : Style) : Z :=
  match border s with Some _ => 2 | None => 0 end.

Definition GetHorizontalMargins (s : Style) : Z := marginLeft s + marginRight s.

Definition GetHorizontalPadding (s : Style) : Z := paddingLeft s + paddingRight s.

Definition GetHorizontalFrameSize (s : Style) : Z :=
  GetHorizontalMargins s + GetHorizontalPadding s + GetHorizontalBorderSize s.

End lipgloss.

(** ** The package-level variables

    [summary] and [description] live outside the model; the form fields
    hold pointers to them and [main] reads them after the program has
    returned. *)

Inductive StringPtr := addr_summary | addr_description.

Record Globals := { summary : string; description : string }.

Definition deref (p : StringPtr) (g : Globals) : string :=
  match p with
  | addr_summary => summary g
  | addr_description => description g
  end.

Definition assign (p : StringPtr) (v : string) (g : Globals) : Globals :=
  match p with
  | addr_summary => {| summary := v; description := description g |}
  | addr_description => {| summary := summary g; description := v |}
  end.

(** Both variables are declared without initialiser. *)
Definition globals0 : Globals := {| summary := ""; description := "" |}.

(** ** huh: the form

    The form of this program has one group; a group is a slice of fields
    and the index of the current one.  A field is an [Input] (one line) or
    a [Text] (several lines); both wrap a text widget and write the
    widget's value through their pointer on every update. *)

Module huh.

Inductive FormState := StateNormal | StateCompleted | StateAborted.

Definition FormState_eqb (a b : FormState) : bool :=
  match a, b with
  | StateNormal, StateNormal
  | StateCompleted, StateCompleted
  | StateAborted, StateAborted => true
  | _, _ => false
  end.

Inductive FieldKind := Input | Text.

(** Which of a field's navigation bindings are enabled
    ([key.Binding.SetEnabled]); [key.Matches] skips a disabled binding. *)
Record Bindings := {
  Prev_enabled : bool;
  Next_enabled : bool;
  Submit_enabled : bool
}.

Record Field := {
  kind : FieldKind;
  title : string;
  value : StringPtr;                  (* the pointer given to [Value] *)
  text : string;                      (* the widget's current value *)
  CharLimit : nat;                    (* of the widget; 0 is no limit *)
  validate : string -> option string; (* [None] is a nil error *)
  err : option string;
  focused : bool;
  keymap : Bindings
}.

Definition with_text (t : string) (f : Field) : Field :=
  {| kind := kind f; title := title f; value := value f; text := t;
     CharLimit := CharLimit f; validate := validate f; err := err f;
     focused := focused f;
     keymap := keymap f |}.

Definition with_err (e : option string) (f : Field) : Field :=
  {| kind := kind f; title := title f; value := value f; text := text f;
     CharLimit := CharLimit f; validate := validate f; err := e;
     focused := focused f;
     keymap := keymap f |}.

Definition with_focused (b : bool) (f : Field) : Field :=
  {| kind := kind f; title := title f; value := value f; text := text f;
     CharLimit := CharLimit f; validate := validate f; err := err f;
     focused := b;
     keymap := keymap f |}.

(** In the default key map every binding is enabled. *)
Definition default_keymap : Bindings :=
  {| Prev_enabled := true; Next_enabled := true; Submit_enabled := true |}.

(** [NewInput().Title(t).Value(p)] and [NewText().Title(t).Value(p)]:
    no validator is installed, so the default one (always nil) stays;
    [Value] loads the widget from the variable.  Neither widget limits the
    length of its text (the text area of bubbles before v0.21 stopped at
    400 runes; the statements below that type a description keep to 400
    characters, which every version takes). *)
Definition NewInput (t : string) (p : StringPtr) (g : Globals) : Field :=
  {| kind := Input; title := t; value := p; text := deref p g;
     CharLimit := 0; validate := fun _ => None; err := None;
     focused := false; keymap := default_keymap |}.

Definition NewText (t : string) (p : StringPtr) (g : Globals) : Field :=
  {| kind := Text; title := t; value := p; text := deref p g;
     CharLimit := 0; validate := fun _ => None; err := None;
     focused := false; keymap := default_keymap |}.

(** [Validate(fn)] replaces the validator (not used by [main.go]; it is
    what a field with a declared constraint would look like). *)
Definition Validate (fn : string -> option string) (f : Field) : Field :=
  {| kind := kind f; title := title f; value := value f; text := text f;
     CharLimit := CharLimit f; validate := fn; err := err f;
     focused := focused f;
     keymap := keymap f |}.

(** [WithPosition]: the first field of the form cannot go back, the last
    one does not go on to a next field but submits. *)
Definition WithPosition (first last : bool) (f : Field) : Field :=
  {| kind := kind f; title := title f; value := value f; text := text f;
     CharLimit := CharLimit f; validate := validate f; err := err f;
     focused := focused f;
     keymap := {| Prev_enabled := negb first; Next_enabled := negb last;
                  Submit_enabled := last |} |}.

(** The keys of the default key map. *)
Definition Quit_keys : list string := ["ctrl+c"].
Definition Input_Prev : list string := ["shift+tab"].
Definition Input_Next : list string := ["enter"; "tab"].
Definition Input_Submit : list string := ["enter"].
Definition Text_Prev : list string := ["shift+tab"].
Definition Text_Next : list string := ["tab"; "enter"].
Definition Text_Submit : list string := ["enter"].
Definition DeleteCharacterBackward : list string := ["backspace"].

(** The widgets count and delete runes, not bytes.  In UTF-8 a byte of the
    form 10xxxxxx continues the rune begun before it. *)
Definition is_continuation (c : ascii) : bool :=
  Nat.leb 128 (nat_of_ascii c) && Nat.ltb (nat_of_ascii c) 192.

Definition rune_count (s : string) : nat :=
  List.length (filter (fun c => negb (is_continuation c)) (list_ascii_of_string s)).

(** The first [n] runes of a text. *)
Fixpoint take_runes (n : nat) (s : string) : string :=
  match s with
  | EmptyString => EmptyString
  | String c rest =>
      if is_continuation c then String c (take_runes n rest)
      else match n with
           | O => EmptyString
           | S n' => String c (take_runes n' rest)
           end
  end.

(** A text given back to front, without its last rune. *)
Fixpoint drop_rune_rev (l : list ascii) : list ascii :=
  match l with
  | [] => []
  | c :: rest => if is_continuation c then drop_rune_rev rest else rest
  end.

(** The widget inserts the runes of a key at the cursor, up to its
    character limit.  With the keys of [tea.KeyType] the cursor never
    leaves the end of the text. *)
Definition insertRunes (limit : nat) (buf runes : string) : string :=
  match limit with
  | O => buf +:+ runes
  | _ => buf +:+ take_runes (limit - rune_count buf) runes
  end.

Definition deleteBeforeCursor (buf : string) : string :=
  string_of_list_ascii (rev (drop_rune_rev (rev (list_ascii_of_string buf)))).

(** [textinput.Update] / [textarea.Update]: a widget that is not focused
    ignores the message; [enter] is not bound to a new line in a huh text
    area. *)
Definition widget_Update (f : Field) (msg : tea.Msg) : Field :=
  if negb (focused f) then f
  else match msg with
       | tea.KeyMsg k =>
           if tea.Matches k DeleteCharacterBackward
           then with_text (deleteBeforeCursor (text f)) f
           else with_text (insertRunes (CharLimit f) (text f) (tea.Runes k)) f
       | _ => f
       end.

(** [key.Matches] on one binding of the field. *)
Definition binding_Matches (enabled : bool) (k : tea.Key) (keys : list string) : bool :=
  enabled && tea.Matches k keys.

(** [Input.Update] and [Text.Update], without the write through the
    pointer (see [Field_Update]). *)
Definition Field_react (f : Field) (msg : tea.Msg) : Field * list tea.Cmd :=
  let f := widget_Update f msg in
  match msg with
  | tea.KeyMsg k =>
      let f := with_err None f in
      let prev := Prev_enabled (keymap f) in
      let next := Next_enabled (keymap f) in
      let submit := Submit_enabled (keymap f) in
      match kind f with
      | Input =>
          if binding_Matches prev k Input_Prev then (f, [tea.prevFieldMsg])
          else if binding_Matches next k Input_Next
                  || binding_Matches submit k Input_Submit then
            match validate f (text f) with
            | Some e => (with_err (Some e) f, [])
            | None => (f, [tea.nextFieldMsg])
            end
          else (f, [])
      | Text =>
          if binding_Matches next k Text_Next
             || binding_Matches submit k Text_Submit then
            match validate f (text f) with
            | Some e => (with_err (Some e) f, [])
            | None => (f, [tea.nextFieldMsg])
            end
          else if binding_Matches prev k Text_Prev then
            match validate f (text f) with
            | Some e => (with_err (Some e) f, [])
            | None => (f, [tea.prevFieldMsg])
            end
          else (f, [])
      end
  | _ => (f, [])
  end.

(** One call of a field's [Update]: the widget is updated, its value is
    stored through the field's pointer, the key is interpreted. *)
Definition Field_Update (gl : Globals) (f : Field) (msg : tea.Msg)
  : Globals * Field * list tea.Cmd :=
  let '(f', cmds) := Field_react f msg in
  (assign (value f') (text f') gl, f', cmds).

(** [Blur] validates the variable the field points to. *)
Definition Blur (gl : Globals) (f : Field) : Field :=
  with_err (validate f (deref (value f) gl)) (with_focused false f).

Definition Focus (f : Field) : Field := with_focused true f.

Record Group := { fields : list Field; Page : nat }.

Definition NewGroup (fs : list Field) : Group := {| fields := fs; Page := 0 |}.

(** [Group.Errors]: the non-nil errors of the fields, in order. *)
Definition Group_Errors (g : Group) : list string := omap err (fields g).

(** Indexing the slice out of range panics: [None]. *)
Definition Group_Init (g : Group) : option Group :=
  f ← fields g !! Page g;
  Some {| fields := <[Page g := Focus f]> (fields g); Page := Page g |}.

Definition OnLastPage (g : Group) : bool :=
  Nat.eqb (Page g) (List.length (fields g) - 1).

Definition OnFirstPage (g : Group) : bool := Nat.eqb (Page g) 0.

Definition nextField (gl : Globals) (g : Group) : option (Group * list tea.Cmd) :=
  f ← fields g !! Page g;
  let fs := <[Page g := Blur gl f]> (fields g) in
  if OnLastPage g then Some ({| fields := fs; Page := Page g |}, [tea.nextGroupMsg])
  else
    let p := S (Page g) in
    f' ← fs !! p;
    Some ({| fields := <[p := Focus f']> fs; Page := p |}, []).

Definition prevField (gl : Globals) (g : Group) : option (Group * list tea.Cmd) :=
  f ← fields g !! Page g;
  let fs := <[Page g := Blur gl f]> (fields g) in
  if OnFirstPage g then Some ({| fields := fs; Page := Page g |}, [tea.prevGroupMsg])
  else
    let p := (Page g - 1)%nat in
    f' ← fs !! p;
    Some ({| fields := <[p := Focus f']> fs; Page := p |}, []).

(** The loop of [Group.Update] over the fields, [i] being the index of
    the head of [fs]: a key goes to the current field only, any other
    message goes to every field, and once more to the current one. *)
Fixpoint updateFields (page i : nat) (msg : tea.Msg) (gl : Globals) (fs : list Field)
  : Globals * list Field * list tea.Cmd :=
  match fs with
  | [] => (gl, [], [])
  | f :: rest =>
      let '(gl1, f1, c1) :=
        if tea.is_KeyMsg msg then (gl, f, []) else Field_Update gl f msg in
      let '(gl2, f2, c2) :=
        if Nat.eqb page i then Field_Update gl1 f1 msg else (gl1, f1, []) in
      let '(gl3, rest', c3) := updateFields page (S i) msg gl2 rest in
      (gl3, f2 :: rest', (c1 ++ c2 ++ c3)%list)
  end.

Definition Group_Update (gl : Globals) (g : Group) (msg : tea.Msg)
  : option (Globals * Group * list tea.Cmd) :=
  let '(gl1, fs, cmds) := updateFields (Page g) 0 msg gl (fields g) in
  let g1 := {| fields := fs; Page := Page g |} in
  match msg with
  | tea.nextFieldMsg =>
      '(g2, c) ← nextField gl1 g1; Some (gl1, g2, (cmds ++ c)%list)
  | tea.prevFieldMsg =>
      '(g2, c) ← prevField gl1 g1; Some (gl1, g2, (cmds ++ c)%list)
  | _ => Some (gl1, g1, cmds)
  end.

Record Form := {
  group : Group;
  State : FormState;
  width : Z;
  showHelp : bool;
  showErrors : bool
}.

(** [UpdateFieldPositions]: every field learns whether it is the first or
    the last of the form. *)
Definition UpdateFieldPositions (g : Group) : Group :=
  {| fields := imap (fun i f => WithPosition (Nat.eqb i 0)
                                  (Nat.eqb i (List.length (fields g) - 1)) f)
                    (fields g);
     Page := Page g |}.

Definition NewForm (g : Group) : Form :=
  {| group := UpdateFieldPositions g; State := StateNormal; width := 0;
     showHelp := true; showErrors := true |}.

Definition WithWidth (w : Z) (f : Form) : Form :=
  {| group := group f; State := State f; width := w;
     showHelp := showHelp f; showErrors := showErrors f |}.

Definition WithShowHelp (b : bool) (f : Form) : Form :=
  {| group := group f; State := State f; width := width f;
     showHelp := b; showErrors := showErrors f |}.

Definition WithShowErrors (b : bool) (f : Form) : Form :=
  {| group := group f; State := State f; width := width f;
     showHelp := showHelp f; showErrors := b |}.

Definition with_group (g : Group) (f : Form) : Form :=
  {| group := g; State := State f; width := width f;
     showHelp := showHelp f; showErrors := showErrors f |}.

Definition with_State (s : FormState) (f : Form) : Form :=
  {| group := group f; State := s; width := width f;
     showHelp := showHelp f; showErrors := showErrors f |}.

(** [Form.Errors]: the errors of the current group. *)
Definition Errors (f : Form) : list string := Group_Errors (group f).

Definition Form_Init (f : Form) : option Form :=
  g ← Group_Init (group f); Some (with_group g f).

(** [Form.Update].  A form that has left [StateNormal] ignores every
    message.  The quit key aborts.  [nextGroupMsg] on the last (here the
    only) group completes the form unless the group shows an error; the
    submit and cancel commands of a form embedded in a model are nil.
    A resize changes the layout only, which is not represented. *)
Definition Form_Update (gl : Globals) (f : Form) (msg : tea.Msg)
  : option (Globals * Form * list tea.Cmd) :=
  let to_group :=
    '(gl', g, cmds) ← Group_Update gl (group f) msg;
    Some (gl', with_group g f, cmds) in
  if negb (FormState_eqb (State f) StateNormal) then Some (gl, f, [])
  else match msg with
       | tea.KeyMsg k =>
           if tea.Matches k Quit_keys then Some (gl, with_State StateAborted f, [])
           else to_group
       | tea.nextGroupMsg =>
           match Group_Errors (group f) with
           | _ :: _ => Some (gl, f, [])
           | [] => Some (gl, with_State StateCompleted f, [])
           end
       | tea.prevGroupMsg =>
           match Group_Errors (group f) with
           | _ :: _ => Some (gl, f, [])
           | [] => g ← Group_Init (group f); Some (gl, with_group g f, [])
           end
       | _ => to_group
       end.

End huh.

(** ** go-jira and the configuration record *)

(** A YAML value, as [yaml.Unmarshal] stores it in an [interface{}]. *)
#[local] Unset Elimination Schemes.
Inductive Any :=
| AString (s : string)
| AInt (z : Z)
| ABool (b : bool)
| ASeq (l : list Any)
| AMap (m : list (string * Any)).
#[local] Set Elimination Schemes.

(** [tcontainer.MarshalMap] is [map[string]interface{}]; the program only
    passes it on, so the bindings are kept as they were read. *)
Definition MarshalMap := list (string * Any).

Module jira.

Record BasicAuthTransport := { Username : string; Password : string }.

Record IssueType := { Name : string }.

Record Project := { Key : string }.

Record IssueFields := {
  Description : string;
  Type_ : IssueType;
  Project_ : Project;
  Summary : string;
  Unknowns : MarshalMap
}.

(** [Issue.Key] and [Issue.Self] are filled in by the service; [Fields]
    is a pointer. *)
Record Issue := {
  Issue_Key : string;
  Self : string;
  Fields : option IssueFields
}.

(** A client is what [Issue.Create] does with an issue: the created
    issue, or an error. *)
Record Client := { Issue_Create : Issue -> string + Issue }.

End jira.

Record CreateIssueConfig := {
  Project : string;
  CustomFields : MarshalMap
}.

Record Config := {
  JiraUrl : string;
  Username : string;
  ApiKey : string;
  CreateIssue : CreateIssueConfig
}.

(** ** The program *)

Definition maxWidth : Z := 160.

Definition red : lipgloss.Color := lipgloss.AdaptiveColor "#FE5F86" "#FE5F86".
Definition indigo : lipgloss.Color := lipgloss.AdaptiveColor "#5A56E0" "#7571F9".
Definition green : lipgloss.Color := lipgloss.AdaptiveColor "#02BA84" "#02BF87".

Record Styles := {
  Base : lipgloss.Style;
  HeaderText : lipgloss.Style;
  Status : lipgloss.Style;
  StatusHeader : lipgloss.Style;
  Highlight : lipgloss.Style;
  ErrorHeaderText : lipgloss.Style;
  Help : lipgloss.Style
}.

Definition NewStyles (lg : lipgloss.Renderer) : Styles :=
  let base := lipgloss.Padding 1 4 0 1 (lipgloss.NewStyle lg) in
  let headerText :=
    lipgloss.Padding 0 1 0 2
      (lipgloss.Bold true (lipgloss.Foreground indigo (lipgloss.NewStyle lg))) in
  let status :=
    lipgloss.MarginTop 1
      (lipgloss.PaddingLeft 1
         (lipgloss.BorderForeground indigo
            (lipgloss.WithBorder lipgloss.RoundedBorder (lipgloss.NewStyle lg)))) in
  let statusHeader :=
    lipgloss.Bold true (lipgloss.Foreground green (lipgloss.NewStyle lg)) in
  let highlight :=
    lipgloss.Foreground (lipgloss.ANSIColor "212") (lipgloss.NewStyle lg) in
  let errorHeaderText := lipgloss.Foreground red (lipgloss.Copy headerText) in
  let help :=
    lipgloss.Foreground (lipgloss.ANSIColor "240") (lipgloss.NewStyle lg) in
  {| Base := base; HeaderText := headerText; Status := status;
     StatusHeader := statusHeader; Highlight := highlight;
     ErrorHeaderText := errorHeaderText; Help := help |}.

Inductive state := statusNormal | stateDone.

Record Model := {
  Model_state : state;
  lg : lipgloss.Renderer;
  styles : Styles;
  form : huh.Form;
  width : Z
}.

Definition with_width (w : Z) (m : Model) : Model :=
  {| Model_state := Model_state m; lg := lg m; styles := styles m;
     form := form m; width := w |}.

Definition with_form (f : huh.Form) (m : Model) : Model :=
  {| Model_state := Model_state m; lg := lg m; styles := styles m;
     form := f; width := width m |}.

(** [NewModel] reads the two variables when it binds the fields to them. *)
Definition NewModel (gl : Globals) : Model :=
  let lg := lipgloss.DefaultRenderer in
  {| Model_state := statusNormal;
     lg := lg;
     styles := NewStyles lg;
     form :=
       huh.WithShowErrors false
         (huh.WithShowHelp false
            (huh.WithWidth 45
               (huh.NewForm
                  (huh.NewGroup
                     [ huh.NewInput "Summary:" addr_summary gl;
                       huh.NewText "Description:" addr_description gl ]))));
     width := maxWidth |}.

(** [m.form] is a pointer: what [form.Init] does to the form is seen by
    the model the runtime holds. *)
Definition Init (m : Model) : option (Model * list tea.Cmd) :=
  f ← huh.Form_Init (form m); Some (with_form f m, []).

Definition is_quit_key (k : tea.Key) : bool :=
  let s := tea.Key_String k in
  String.eqb s "esc" || String.eqb s "ctrl+c" || String.eqb s "q".

(** [Model.Update].  [None] is a panic inside the form. *)
Definition Update (gl : Globals) (m : Model) (msg : tea.Msg)
  : option (Globals * Model * list tea.Cmd) :=
  let process_form (m : Model) :=
    '(gl', f, cmd) ← huh.Form_Update gl (form m) msg;
    let m := with_form f m in
    let cmds := cmd in
    let cmds :=
      if huh.FormState_eqb (huh.State (form m)) huh.StateCompleted
      then (cmds ++ [tea.Quit])%list else cmds in
    Some (gl', m, cmds) in
  match msg with
  | tea.WindowSizeMsg Width _ =>
      process_form
        (with_width
           (int_sub (Z.min Width maxWidth)
              (lipgloss.GetHorizontalFrameSize (Base (styles m)))) m)
  | tea.KeyMsg k =>
      if is_quit_key k then Some (gl, m, [tea.Quit])
      else process_form m
  | _ => process_form m
  end.

(** What the terminal libraries turn styles and forms into.  The escape
    sequences depend on the terminal's colour profile, the form's own view
    on its theme; both are left open. *)
Class Rendering := {
  Style_Render : lipgloss.Style -> string -> string;
  PlaceHorizontal :
    Z -> lipgloss.Position -> string -> list lipgloss.WhitespaceOption -> string;
  Form_View : huh.Form -> string;
  (* [form.Help().ShortHelpView(form.KeyBinds())] *)
  Form_ShortHelpView : huh.Form -> string
}.

Definition newline : string := String (ascii_of_nat 10) "".

Definition errorView (m : Model) : string :=
  fold_left (fun s err => s +:+ err) (huh.Errors (form m)) "".

Definition appBoundaryView `{Rendering} (m : Model) (text : string) : string :=
  PlaceHorizontal (width m) lipgloss.Left
    (Style_Render (HeaderText (styles m)) text)
    [ lipgloss.WithWhitespaceChars "/";
      lipgloss.WithWhitespaceForeground indigo ].

Definition appErrorBoundaryView `{Rendering} (m : Model) (text : string) : string :=
  PlaceHorizontal (width m) lipgloss.Left
    (Style_Render (ErrorHeaderText (styles m)) text)
    [ lipgloss.WithWhitespaceChars "/";
      lipgloss.WithWhitespaceForeground red ].

Definition View `{Rendering} (m : Model) : string :=
  let s := styles m in
  let errors := huh.Errors (form m) in
  let header := appBoundaryView m "Create a JIRA Ticket" in
  let header :=
    if Nat.ltb 0 (List.length errors)
    then appErrorBoundaryView m (errorView m) else header in
  let footer := appBoundaryView m (Form_ShortHelpView (form m)) in
  let footer :=
    if Nat.ltb 0 (List.length errors)
    then appErrorBoundaryView m "" else footer in
  Style_Render (Base s)
    (header +:+ newline +:+ Form_View (form m) +:+ newline +:+ newline +:+ footer).

(** ** The bubbletea runtime

    [tea.NewProgram(model).Run()] calls [Init], then handles one message at
    a time: [QuitMsg] makes [Run] return the current model with a nil
    error, every other message goes to [Update], whose commands are run and
    deliver their messages back to the loop.  The commands of this program
    complete at once, so their messages are taken to arrive, in order,
    before the next terminal event. *)

Record World := { globals : Globals; model : Model }.

Inductive Delivery :=
| Idle (w : World)         (* nothing pending: the loop waits for the terminal *)
| QuitReceived (w : World) (* the loop has seen [QuitMsg] *)
| UpdatePanicked           (* [Update] indexed a slice out of range *)
| CascadeTooLong.          (* more follow-up messages than [fuel] allows *)

Fixpoint deliver (fuel : nat) (pending : list tea.Msg) (w : World) : Delivery :=
  match pending with
  | [] => Idle w
  | tea.QuitMsg :: _ => QuitReceived w
  | msg :: rest =>
      match fuel with
      | O => CascadeTooLong
      | S fuel' =>
          match Update (globals w) (model w) msg with
          | None => UpdatePanicked
          | Some (gl, m, cmds) =>
              deliver fuel' (rest ++ cmds) {| globals := gl; model := m |}
          end
      end
  end.

(** A bound on the number of messages one terminal event can set off
    (see [deliver_enough_fuel]). *)
Definition cascade : nat := 6.

Inductive RunResult :=
| Returned (w : World)   (* [Run] returned the model and a nil error *)
| Failed (e : string)    (* [Run] returned an error *)
| Waiting (w : World)    (* the events are used up, the loop is still waiting *)
| Crashed                (* a panic inside [Update] *)
| Unfinished.            (* [cascade] was too small *)

Fixpoint eventLoop (events : list tea.Msg) (w : World) : RunResult :=
  match events with
  | [] => Waiting w
  | ev :: rest =>
      match deliver cascade [ev] w with
      | Idle w' => eventLoop rest w'
      | QuitReceived w' => Returned w'
      | UpdatePanicked => Crashed
      | CascadeTooLong => Unfinished
      end
  end.

(** [startup] is the error, if any, the program meets before its loop
    starts (no terminal to open); [events] are the terminal events. *)
Definition Program_Run (startup : option string) (events : list tea.Msg) (w : World)
  : RunResult :=
  match startup with
  | Some e => Failed e
  | None =>
      match Init (model w) with
      | None => Crashed
      | Some (m, cmds) =>
          match deliver cascade cmds {| globals := globals w; model := m |} with
          | Idle w' => eventLoop events w'
          | QuitReceived w' => Returned w'
          | UpdatePanicked => Crashed
          | CascadeTooLong => Unfinished
          end
      end
  end.

(** ** [main] *)

(** What the process finds around it. *)
Record Env := {
  UserHomeDir : string + string;              (* error or directory *)
  filepath_Join : list string -> string;
  ReadFile : string -> string + string;       (* error or contents *)
  yaml_Unmarshal : string -> string + Config; (* error or the record *)
  startup : option string;
  events : list tea.Msg;
  (* [jira.NewClient]: nil when the URL does not parse *)
  NewClient : jira.BasicAuthTransport -> string -> option jira.Client
}.

Inductive Termination :=
| Exit (code : Z)        (* [os.Exit], or 0 when [main] returns *)
| Panic (e : string)     (* [panic]: the Go runtime exits with status 2 *)
| StillRunning           (* the terminal program has not returned *)
| UICrash                (* panic inside the terminal program *)
| UIUnfinished.

Record Outcome := {
  stdout : list string;          (* lines printed *)
  created : list jira.Issue;     (* the arguments of [Issue.Create], in order *)
  termination : Termination
}.

Definition Println2 (a b : string) : string := a +:+ " " +:+ b +:+ newline.

Definition oh_no (e : string) : Outcome :=
  {| stdout := [Println2 "Oh no:" e]; created := []; termination := Exit 1 |}.

Definition silent (t : Termination) : Outcome :=
  {| stdout := []; created := []; termination := t |}.

Definition nil_dereference : string :=
  "runtime error: invalid memory address or nil pointer dereference".

Definition main (env : Env) : Outcome :=
  match UserHomeDir env with
  | inl err => oh_no err
  | inr dirname =>
  match ReadFile env (filepath_Join env [dirname; ".config"; "lazyjira"; "config.yaml"]) with
  | inl err => oh_no err
  | inr f =>
  match yaml_Unmarshal env f with
  | inl err => oh_no err
  | inr c =>
  let model := NewModel globals0 in
  match Program_Run (startup env) (events env) {| globals := globals0; model := model |} with
  | Failed err2 => oh_no err2
  | Waiting _ => silent StillRunning
  | Crashed => silent UICrash
  | Unfinished => silent UIUnfinished
  | Returned w =>
      let tp := {| jira.Username := Username c; jira.Password := ApiKey c |} in
      let jiraClient := NewClient env tp (JiraUrl c) in
      let i :=
        {| jira.Issue_Key := ""; jira.Self := "";
           jira.Fields := Some
             {| jira.Description := description (globals w);
                jira.Type_ := {| jira.Name := "Bug" |};
                jira.Project_ := {| jira.Key := Project (CreateIssue c) |};
                jira.Summary := summary (globals w);
                jira.Unknowns := CustomFields (CreateIssue c) |} |} in
      match jiraClient with
      | None => silent (Panic nil_dereference)
      | Some client =>
          match jira.Issue_Create client i with
          | inl err => {| stdout := []; created := [i]; termination := Panic err |}
          | inr issue =>
              {| stdout := [jira.Issue_Key issue +:+ ": " +:+ jira.Self issue +:+ newline];
                 created := [i];
                 termination := Exit 0 |}
          end
      end
  end end end end.

(** The status the operating system sees, once the process has ended. *)
Definition exit_status (t : Termination) : option Z :=
  match t with
  | Exit code => Some code
  | Panic _ => Some 2
  | StillRunning | UICrash | UIUnfinished => None
  end.

(** ** Vocabulary of the specification *)

(** The terminal flag of a run: [active] while the loop is waiting for
    events; once [Run] has returned, [completed] if the form says so and
    [cancelled] otherwise (the loop was left through a quit key). *)
Inductive Terminal := active | completed | cancelled.

Definition terminal (r : RunResult) : option Terminal :=
  match r with
  | Waiting _ => Some active
  | Returned w =>
      if huh.FormState_eqb (huh.State (form (model w))) huh.StateCompleted
      then Some completed else Some cancelled
  | Failed _ | Crashed | Unfinished => None
  end.

(** The state a run starts from, and the run of a list of terminal events. *)
Definition world0 : World := {| globals := globals0; model := NewModel globals0 |}.

Definition run (events : list tea.Msg) : RunResult := Program_Run None events world0.

Definition run_of (env : Env) : RunResult :=
  Program_Run (startup env) (events env) world0.

(** The configuration [main] ends up with, if it gets that far. *)
Definition config_of (env : Env) : option Config :=
  match UserHomeDir env with
  | inl _ => None
  | inr dirname =>
      match ReadFile env (filepath_Join env [dirname; ".config"; "lazyjira"; "config.yaml"]) with
      | inl _ => None
      | inr f =>
          match yaml_Unmarshal env f with
          | inl _ => None
          | inr c => Some c
          end
      end
  end.

(** The text of the field at index [i], and the index of the field in
    focus. *)
Definition field_text (m : Model) (i : nat) : option string :=
  huh.text <$> huh.fields (huh.group (form m)) !! i.

Definition field_err (m : Model) (i : nat) : option (option string) :=
  huh.err <$> huh.fields (huh.group (form m)) !! i.

Definition focus (m : Model) : nat := huh.Page (huh.group (form m)).

(** Terminal events. *)
Definition key (t : tea.KeyType) : tea.Msg :=
  tea.KeyMsg {| tea.Type_ := t; tea.Runes := "" |}.

Definition runes (s : string) : tea.Msg :=
  tea.KeyMsg {| tea.Type_ := tea.KeyRunes; tea.Runes := s |}.

Definition keystroke (c : ascii) : tea.Msg :=
  if Ascii.eqb c " "%char
  then tea.KeyMsg {| tea.Type_ := tea.KeySpace; tea.Runes := " " |}
  else runes (String c "").

(** Typing a text, one key press per character. *)
Definition typing (s : string) : list tea.Msg :=
  map keystroke (list_ascii_of_string s).

(** The states the program can be in: the initial one, before and after
    [Init], and whatever [Update] makes of them, for any message. *)
Inductive reachable : World -> Prop :=
| reachable_new : reachable world0
| reachable_init m cmds :
    Init (NewModel globals0) = Some (m, cmds) ->
    reachable {| globals := globals0; model := m |}
| reachable_update w msg gl m cmds :
    reachable w ->
    Update (globals w) (model w) msg = Some (gl, m, cmds) ->
    reachable {| globals := gl; model := m |}.

(** What stays true of them: the two fields keep their pointers and the
    key bindings of their positions (the title is the first field, the
    description the last), widgets and variables agree, no field has a
    character limit, a validator or an error, the page is a valid index,
    the styles are those of [NewStyles], and the form is never aborted (its
    quit key does not get past [Update]). *)
Definition bound (gl : Globals) (p : StringPtr) (k : huh.FieldKind)
  (first last : bool) (f : huh.Field) : Prop :=
  huh.value f = p /\ huh.text f = deref p gl /\ huh.kind f = k /\
  huh.CharLimit f = 0%nat /\
  huh.keymap f = huh.keymap (huh.WithPosition first last f) /\
  huh.validate f = (fun _ => None) /\ huh.err f = None.

Definition invariant (w : World) : Prop :=
  styles (model w) = NewStyles lipgloss.DefaultRenderer /\
  lg (model w) = lipgloss.DefaultRenderer /\
  Model_state (model w) = statusNormal /\
  huh.State (form (model w)) <> huh.StateAborted /\
  (focus (model w) < 2)%nat /\
  exists f0 f1,
    huh.fields (huh.group (form (model w))) = [f0; f1] /\
    bound (globals w) addr_summary huh.Input true false f0 /\
    bound (globals w) addr_description huh.Text false true f1.

(** The number of messages a message can set off, itself included. *)
Definition weight (msg : tea.Msg) : nat :=
  match msg with
  | tea.QuitMsg => 1
  | tea.nextGroupMsg | tea.prevGroupMsg => 2
  | tea.nextFieldMsg | tea.prevFieldMsg => 4
  | tea.KeyMsg _ | tea.WindowSizeMsg _ _ => 6
  end.

Definition total_weight (l : list tea.Msg) : nat :=
  fold_right (fun msg n => (weight msg + n)%nat) 0%nat l.

(** ** Sample data for the scenarios *)

(** A terminal that ignores styles: the text is shown as it is. *)
Definition plain : Rendering :=
  {| Style_Render := fun _ text => text;
     PlaceHorizontal := fun _ _ text _ => text;
     Form_View := fun f =>
       fold_right (fun fld s => huh.title fld +:+ " " +:+ huh.text fld +:+ newline +:+ s)
         "" (huh.fields (huh.group f));
     Form_ShortHelpView := fun _ => "enter next" |}.

(** A terminal that shows what it was asked for: a style with a
    foreground colour puts the colour in brackets before the text, and the
    filler of a placed line follows the text, its character and then its
    colour. *)
Definition colour_name (c : lipgloss.Color) : string :=
  match c with
  | lipgloss.AdaptiveColor _ dark => "[" +:+ dark +:+ "]"
  | lipgloss.ANSIColor code => "[" +:+ code +:+ "]"
  end.

Definition filler (o : lipgloss.WhitespaceOption) : string :=
  match o with
  | lipgloss.WithWhitespaceChars chars => chars
  | lipgloss.WithWhitespaceForeground c => colour_name c
  end.

Definition marked : Rendering :=
  {| Style_Render := fun s text =>
       match lipgloss.foreground s with
       | Some c => colour_name c +:+ text
       | None => text
       end;
     PlaceHorizontal := fun _ _ text opts =>
       text +:+ String.concat "" (map filler opts);
     Form_View := @Form_View plain;
     Form_ShortHelpView := @Form_ShortHelpView plain |}.

Definition sample_config : Config :=
  {| JiraUrl := "https://jira.example.org";
     Username := "operator";
     ApiKey := "secret";
     CreateIssue :=
       {| Project := "OPS";
          CustomFields := [("customfield_10010", AString "triage")] |} |}.

(** A service that accepts every issue. *)
Definition accepting_client : jira.Client :=
  {| jira.Issue_Create := fun i =>
       inr {| jira.Issue_Key := "OPS-1";
              jira.Self := "https://jira.example.org/rest/api/2/issue/1";
              jira.Fields := jira.Fields i |} |}.

Definition sample_env (evs : list tea.Msg) : Env :=
  {| UserHomeDir := inr "/home/operator";
     filepath_Join := fun parts => fold_right (fun p s => p +:+ "/" +:+ s) "" parts;
     ReadFile := fun _ => inr "jira_url: https://jira.example.org";
     yaml_Unmarshal := fun _ => inr sample_config;
     startup := None;
     events := evs;
     NewClient := fun _ _ => Some accepting_client |}.

(** The scenarios of the specification. *)
Definition happy_path : list tea.Msg :=
  typing "Bug in login" ++ [key tea.KeyEnter] ++
  typing "Steps: ..." ++ [key tea.KeyEnter].

Definition empty_title_advance : list tea.Msg := [key tea.KeyEnter].

Definition cancel_mid_entry : list tea.Msg := typing "Bu" ++ [key tea.KeyEsc].

Definition pasted_q : tea.Msg := runes "qa".

(** A field with a declared constraint, as a form other than this one
    could have: the text must not be empty. *)
Definition not_empty (s : string) : option string :=
  if String.eqb s "" then Some "must not be empty" else None.

Definition required_field (t : string) : huh.Field :=
  huh.Focus (huh.with_text t (huh.Validate not_empty (huh.NewInput "Name:" addr_summary globals0))).

(** The issue [main] hands to [Issue.Create]. *)
Definition issue_of (c : Config) (gl : Globals) : jira.Issue :=
  {| jira.Issue_Key := ""; jira.Self := "";
     jira.Fields := Some
       {| jira.Description := description gl;
          jira.Type_ := {| jira.Name := "Bug" |};
          jira.Project_ := {| jira.Key := Project (CreateIssue c) |};
          jira.Summary := summary gl;
          jira.Unknowns := CustomFields (CreateIssue c) |} |}.

(** A model whose single field has just refused an empty text. *)
Definition model_with_error : Model :=
  with_form
    (huh.with_group
       (huh.NewGroup [huh.with_err (Some "must not be empty") (required_field "")])
       (form (NewModel globals0)))
    (NewModel globals0).

(** The state reached from the initial one by a resize to [W] columns. *)
Definition resized (W : Z) : World :=
  match Update globals0 (NewModel globals0) (tea.WindowSizeMsg W 50) with
  | Some (gl, m, _) => {| globals := gl; model := m |}
  | None => world0
  end.

(** Whether a text has the letter q in it. *)
Definition has_q (s : string) : bool :=
  existsb (Ascii.eqb "q"%char) (list_ascii_of_string s).

(** ** Vocabulary for the further properties *)

(** Environments that differ from another one in a single respect. *)
Definition with_UserHomeDir (h : string + string) (env : Env) : Env :=
  {| UserHomeDir := h; filepath_Join := filepath_Join env;
     ReadFile := ReadFile env; yaml_Unmarshal := yaml_Unmarshal env;
     startup := startup env; events := events env; NewClient := NewClient env |}.


Definition with_events (evs : list tea.Msg) (env : Env) : Env :=
  {| UserHomeDir := UserHomeDir env; filepath_Join := filepath_Join env;
     ReadFile := ReadFile env; yaml_Unmarshal := yaml_Unmarshal env;
     startup := startup env; events := evs; NewClient := NewClient env |}.

Definition with_NewClient
  (mk : jira.BasicAuthTransport -> string -> option jira.Client) (env : Env) : Env :=
  {| UserHomeDir := UserHomeDir env; filepath_Join := filepath_Join env;
     ReadFile := ReadFile env; yaml_Unmarshal := yaml_Unmarshal env;
     startup := startup env; events := events env; NewClient := mk |}.

(** A service that refuses every issue. *)
Definition rejecting_client : jira.Client :=
  {| jira.Issue_Create := fun _ => inl "401 Unauthorized" |}.

(** The transport [main] builds from a configuration. *)
Definition transport_of (c : Config) : jira.BasicAuthTransport :=
  {| jira.Username := Username c; jira.Password := ApiKey c |}.

(** The characters a key press can insert: the printable ones. *)
Definition printable_char (c : ascii) : bool :=
  Nat.leb 32 (nat_of_ascii c) && Nat.ltb (nat_of_ascii c) 127.

Definition printable (s : string) : bool :=
  forallb printable_char (list_ascii_of_string s).

(** The form is in its normal state with the field at index [i] current,
    and that field, and no other, has the focus. *)
Definition editing (i : nat) (w : World) : Prop :=
  invariant w /\
  huh.State (form (model w)) = huh.StateNormal /\
  focus (model w) = i /\
  forall j f, huh.fields (huh.group (form (model w))) !! j = Some f ->
              huh.focused f = Nat.eqb j i.

(** The state a run has got to. *)
Definition world_of (r : RunResult) : World :=
  match r with
  | Returned w | Waiting w => w
  | Failed _ | Crashed | Unfinished => world0
  end.

(** A state with its stored width left out of account, and the same for
    what the loop and a run yield. *)
Definition forget_width (w : World) : World :=
  {| globals := globals w; model := with_width 0 (model w) |}.

Definition forget_width_delivery (d : Delivery) : Delivery :=
  match d with
  | Idle w => Idle (forget_width w)
  | QuitReceived w => QuitReceived (forget_width w)
  | UpdatePanicked => UpdatePanicked
  | CascadeTooLong => CascadeTooLong
  end.

Definition forget_width_result (r : RunResult) : RunResult :=
  match r with
  | Returned w => Returned (forget_width w)
  | Waiting w => Waiting (forget_width w)
  | Failed e => Failed e
  | Crashed => Crashed
  | Unfinished => Unfinished
  end.

(** The messages that come from the terminal: key presses and resizes. *)
Definition from_terminal (msg : tea.Msg) : bool :=
  match msg with
  | tea.WindowSizeMsg _ _ | tea.KeyMsg _ => true
  | _ => false
  end.

(** * Properties *)

(** ** Keys *)

Lemma Matches_singleton k s :
  tea.Matches k [s] = String.eqb (tea.Key_String k) s.
Proof. unfold tea.Matches. simpl. apply orb_false_r. Qed.

Lemma is_quit_key_spec k :
  is_quit_key k = true <->
  tea.Key_String k = "esc" \/ tea.Key_String k = "ctrl+c" \/ tea.Key_String k = "q".
Proof.
  unfold is_quit_key.
  rewrite !orb_true_iff, !String.eqb_eq. tauto.
Qed.

(** The form's own quit key never gets past [Update]. *)
Lemma not_quit_key_not_form_quit k :
  is_quit_key k = false -> tea.Matches k huh.Quit_keys = false.
Proof.
  unfold is_quit_key, huh.Quit_keys. rewrite Matches_singleton.
  intros H. apply orb_false_elim in H as [H _].
  apply orb_false_elim in H as [_ H]. exact H.
Qed.

(** ** The commands of one update *)

Lemma widget_Update_not_key f msg :
  tea.is_KeyMsg msg = false -> huh.widget_Update f msg = f.
Proof.
  intros H. unfold huh.widget_Update.
  destruct (negb (huh.focused f)); [reflexivity|].
  destruct msg; try reflexivity. discriminate.
Qed.

Lemma Field_react_not_key f msg :
  tea.is_KeyMsg msg = false -> huh.Field_react f msg = (f, []).
Proof.
  intros H. unfold huh.Field_react. rewrite widget_Update_not_key by exact H.
  destruct msg; try reflexivity. discriminate.
Qed.

Lemma Field_Update_not_key gl f msg :
  tea.is_KeyMsg msg = false ->
  huh.Field_Update gl f msg = (assign (huh.value f) (huh.text f) gl, f, []).
Proof.
  intros H. unfold huh.Field_Update. rewrite Field_react_not_key by exact H.
  reflexivity.
Qed.

(** A field answers a key with at most one navigation command. *)
Lemma Field_react_cmds f msg :
  let cmds := snd (huh.Field_react f msg) in
  cmds = [] \/ cmds = [tea.nextFieldMsg] \/ cmds = [tea.prevFieldMsg].
Proof.
  unfold huh.Field_react.
  destruct msg; simpl; auto.
  repeat case_match; simpl; auto.
Qed.

Lemma Field_Update_cmds gl f msg :
  let cmds := snd (huh.Field_Update gl f msg) in
  cmds = [] \/ cmds = [tea.nextFieldMsg] \/ cmds = [tea.prevFieldMsg].
Proof.
  unfold huh.Field_Update.
  pose proof (Field_react_cmds f msg) as H.
  destruct (huh.Field_react f msg) as [f' cmds]. exact H.
Qed.

Lemma updateFields_cmds_not_key page msg fs :
  tea.is_KeyMsg msg = false ->
  forall i gl, snd (huh.updateFields page i msg gl fs) = [].
Proof.
  intros Hk. induction fs as [|f rest IH]; intros i gl; simpl; [reflexivity|].
  rewrite Hk. rewrite Field_Update_not_key by exact Hk.
  destruct (Nat.eqb page i).
  - rewrite Field_Update_not_key by exact Hk.
    specialize (IH (S i) (assign (huh.value f) (huh.text f) (assign (huh.value f) (huh.text f) gl))).
    destruct (huh.updateFields page (S i) msg _ rest) as [[gl3 rest'] c3].
    simpl in *. exact IH.
  - specialize (IH (S i) (assign (huh.value f) (huh.text f) gl)).
    destruct (huh.updateFields page (S i) msg _ rest) as [[gl3 rest'] c3].
    simpl in *. exact IH.
Qed.

Lemma updateFields_cmds_key page msg fs :
  tea.is_KeyMsg msg = true ->
  forall i gl,
    let cmds := snd (huh.updateFields page i msg gl fs) in
    ((page < i)%nat -> cmds = []) /\ (total_weight cmds <= 4)%nat.
Proof.
  intros Hk. induction fs as [|f rest IH]; intros i gl; simpl.
  - split; [reflexivity | lia].
  - rewrite Hk.
    destruct (Nat.eqb_spec page i) as [->|Hne].
    + pose proof (Field_Update_cmds gl f msg) as Hc.
      destruct (huh.Field_Update gl f msg) as [[gl2 f2] c2].
      destruct (IH (S i) gl2) as [Hnil _].
      destruct (huh.updateFields i (S i) msg gl2 rest) as [[gl3 rest'] c3].
      simpl in *. rewrite Hnil by lia. rewrite app_nil_r.
      split; [lia|].
      destruct Hc as [-> | [-> | ->]]; simpl; lia.
    + destruct (IH (S i) gl) as [Hnil Hw].
      destruct (huh.updateFields page (S i) msg gl rest) as [[gl3 rest'] c3].
      simpl in *. split; [intros; apply Hnil; lia | exact Hw].
Qed.

Lemma total_weight_app a b :
  total_weight (a ++ b) = (total_weight a + total_weight b)%nat.
Proof. induction a as [|x a IH]; simpl; [reflexivity | rewrite IH; lia]. Qed.

Lemma nextField_cmds gl g g' c :
  huh.nextField gl g = Some (g', c) -> c = [] \/ c = [tea.nextGroupMsg].
Proof.
  unfold huh.nextField. intros H.
  destruct (huh.fields g !! huh.Page g); simpl in H; [|discriminate].
  destruct (huh.OnLastPage g); [injection H as _ <-; auto|].
  destruct (_ !! _); simpl in H; [|discriminate].
  injection H as _ <-; auto.
Qed.

Lemma prevField_cmds gl g g' c :
  huh.prevField gl g = Some (g', c) -> c = [] \/ c = [tea.prevGroupMsg].
Proof.
  unfold huh.prevField. intros H.
  destruct (huh.fields g !! huh.Page g); simpl in H; [|discriminate].
  destruct (huh.OnFirstPage g); [injection H as _ <-; auto|].
  destruct (_ !! _); simpl in H; [|discriminate].
  injection H as _ <-; auto.
Qed.

Lemma Group_Update_weight gl g msg gl' g' cmds :
  huh.Group_Update gl g msg = Some (gl', g', cmds) ->
  msg <> tea.QuitMsg ->
  (total_weight cmds + 2 <= weight msg)%nat.
Proof.
  unfold huh.Group_Update. intros H Hq.
  destruct (tea.is_KeyMsg msg) eqn:Hk.
  - pose proof (updateFields_cmds_key (huh.Page g) msg (huh.fields g) Hk 0%nat gl) as [_ Hw].
    destruct (huh.updateFields _ _ _ _ _) as [[gl1 fs] c1]. simpl in Hw.
    destruct msg; try discriminate. injection H as _ _ <-. simpl. lia.
  - pose proof (updateFields_cmds_not_key (huh.Page g) msg (huh.fields g) Hk 0%nat gl) as Hnil.
    destruct (huh.updateFields _ _ _ _ _) as [[gl1 fs] c1]. simpl in Hnil. subst c1.
    destruct msg; try discriminate; try congruence;
      try (injection H as _ _ <-; simpl; lia).
    + destruct (huh.nextField _ _) as [[g2 c]|] eqn:Hn; simpl in H; [|discriminate].
      injection H as _ _ <-. apply nextField_cmds in Hn as [-> | ->]; simpl; lia.
    + destruct (huh.prevField _ _) as [[g2 c]|] eqn:Hn; simpl in H; [|discriminate].
      injection H as _ _ <-. apply prevField_cmds in Hn as [-> | ->]; simpl; lia.
Qed.

Lemma Form_Update_weight gl f msg gl' f' cmds :
  huh.Form_Update gl f msg = Some (gl', f', cmds) ->
  msg <> tea.QuitMsg ->
  (total_weight cmds + 2 <= weight msg)%nat.
Proof.
  unfold huh.Form_Update. intros H Hq.
  assert (Hg : forall r,
    (huh.Group_Update gl (huh.group f) msg ≫= (fun '(gl', g, cmds) =>
       Some (gl', huh.with_group g f, cmds))) = Some r ->
    (total_weight (snd r) + 2 <= weight msg)%nat).
  { intros [[a b] c] Hr.
    destruct (huh.Group_Update gl (huh.group f) msg) as [[[gl1 g1] c1]|] eqn:Hu;
      simpl in Hr; [|discriminate].
    injection Hr as _ _ <-. simpl. eapply Group_Update_weight; eauto. }
  destruct (negb _).
  { injection H as _ _ <-. destruct msg; simpl; try lia. congruence. }
  destruct msg; try congruence; try (apply Hg in H; exact H).
  - destruct (tea.Matches k huh.Quit_keys).
    + injection H as _ _ <-. simpl. lia.
    + apply Hg in H; exact H.
  - destruct (huh.Group_Errors _); injection H as _ _ <-; simpl; lia.
  - destruct (huh.Group_Errors _); [|injection H as _ _ <-; simpl; lia].
    destruct (huh.Group_Init _); simpl in H; [|discriminate].
    injection H as _ _ <-; simpl; lia.
Qed.

(** Every command of an update weighs less than the message that caused
    it: a terminal event sets off a bounded cascade. *)
Lemma Update_weight gl m msg gl' m' cmds :
  Update gl m msg = Some (gl', m', cmds) ->
  msg <> tea.QuitMsg ->
  (total_weight cmds < weight msg)%nat.
Proof.
  intros H Hq.
  assert (Hp : forall m0 r,
    (huh.Form_Update gl (form m0) msg ≫= (fun '(gl', f, cmd) =>
       let m := with_form f m0 in
       let cmds := cmd in
       let cmds :=
         if huh.FormState_eqb (huh.State (form m)) huh.StateCompleted
         then (cmds ++ [tea.Quit])%list else cmds in
       Some (gl', m, cmds))) = Some r ->
    (total_weight (snd r) < weight msg)%nat).
  { intros m0 [[a b] c] Hr.
    destruct (huh.Form_Update gl (form m0) msg) as [[[gl1 f1] c1]|] eqn:Hu;
      simpl in Hr; [|discriminate].
    apply Form_Update_weight in Hu; [|exact Hq].
    destruct (huh.FormState_eqb _ _); injection Hr as _ _ <-; simpl.
    - rewrite total_weight_app. simpl. lia.
    - lia. }
  unfold Update in H.
  destruct msg; try congruence; try (apply Hp in H; exact H).
  destruct (is_quit_key k).
  - injection H as _ _ <-. simpl. lia.
  - apply Hp in H; exact H.
Qed.

Lemma deliver_enough_fuel fuel :
  forall pending w,
    (total_weight pending <= fuel)%nat ->
    deliver fuel pending w <> CascadeTooLong.
Proof.
  induction fuel as [|fuel IH]; intros pending w Hw.
  - destruct pending as [|msg rest]; simpl; [discriminate|].
    destruct msg; simpl in Hw; lia.
  - destruct pending as [|msg rest]; simpl; [discriminate|].
    destruct (Update (globals w) (model w) msg) as [[[gl m] cmds]|] eqn:Hu.
    + destruct msg; try discriminate;
        (apply Update_weight in Hu; [|discriminate];
         apply IH; rewrite total_weight_app; simpl in *; lia).
    + destruct msg; discriminate.
Qed.

(** [cascade] is enough for any one message, in any state. *)
Lemma cascade_suffices ev w : deliver cascade [ev] w <> CascadeTooLong.
Proof.
  apply deliver_enough_fuel.
  destruct ev; simpl; unfold cascade; lia.
Qed.

(** ** The invariant of the reachable states *)

Lemma invariant_world0 : invariant world0.
Proof.
  unfold invariant, world0, focus. simpl.
  repeat split; try discriminate; try lia.
  eexists _, _. split; [reflexivity|]. unfold bound. simpl. tauto.
Qed.

Lemma invariant_Init m cmds :
  Init (NewModel globals0) = Some (m, cmds) ->
  invariant {| globals := globals0; model := m |}.
Proof.
  intros H. vm_compute in H. injection H as <- <-.
  unfold invariant, focus. simpl.
  repeat split; try discriminate; try lia.
  eexists _, _. split; [reflexivity|]. unfold bound. simpl. tauto.
Qed.

Ltac break_world w :=
  let gl := fresh "gl" in
  let st := fresh "st" in
  let sty := fresh "sty" in
  let fs := fresh "fs" in
  let pg := fresh "pg" in
  let St := fresh "St" in
  destruct w as [gl [st ? sty [[fs pg] St ? ? ?] ?]].

Ltac break_bound H :=
  let f := fresh "f" in
  match type of H with
  | bound _ _ _ _ _ ?x =>
      destruct x; unfold bound in H; simpl in H;
      destruct H as (? & ? & ? & ? & ? & ? & ?); subst
  end.

Ltac invariant_holds :=
  unfold invariant, focus, bound; simpl;
  repeat split; try assumption; try discriminate; try lia; try reflexivity;
  try (eexists _, _; split; [reflexivity|]; simpl; tauto).

Ltac unfold_form :=
  unfold huh.Group_Update, huh.Group_Init, huh.nextField, huh.prevField,
    huh.Field_Update, huh.Field_react, huh.widget_Update, huh.Group_Errors,
    huh.binding_Matches, huh.Blur, huh.Focus in *.

Ltac split_on_keys :=
  repeat match goal with
    | |- context [tea.Matches ?k ?l] => destruct (tea.Matches k l) eqn:?
    end.

#[local] Arguments tea.Matches : simpl never.
#[local] Arguments is_quit_key : simpl never.
#[local] Arguments huh.insertRunes : simpl never.
#[local] Arguments huh.deleteBeforeCursor : simpl never.

Lemma invariant_Update w msg :
  invariant w ->
  exists gl m cmds,
    Update (globals w) (model w) msg = Some (gl, m, cmds) /\
    invariant {| globals := gl; model := m |}.
Proof.
  break_world w. unfold invariant, focus. simpl.
  intros (Hsty & Hlg & Hst & HSt & Hpg & f0 & f1 & Hfs & B0 & B1).
  break_bound B0. break_bound B1.
  assert (Hpage : pg = 0%nat \/ pg = 1%nat) by lia.
  destruct msg as [W H | k | | | | | ];
    unfold Update, huh.Form_Update; simpl.
  all: try (destruct (is_quit_key k) eqn:Hq;
            [ eexists _, _, _; split; [reflexivity|]; invariant_holds
            | rewrite (not_quit_key_not_form_quit _ Hq) ]).
  all: destruct St; try congruence; simpl.
  all: destruct Hpage as [-> | ->]; simpl.
  all: repeat (progress (unfold_form; simpl)).
  all: repeat match goal with |- context [negb ?b] => is_var b; destruct b; simpl end.
  all: split_on_keys; simpl.
  all: try (eexists _, _, _; split; [reflexivity|]; invariant_holds).
Qed.

Lemma reachable_invariant w : reachable w -> invariant w.
Proof.
  induction 1 as [| m cmds Hi | w msg gl m cmds Hr IH Hu].
  - exact invariant_world0.
  - eapply invariant_Init; eauto.
  - destruct (invariant_Update w msg IH) as (gl' & m' & cmds' & Hu' & Hinv).
    rewrite Hu in Hu'. injection Hu' as -> -> ->. exact Hinv.
Qed.

(** From a reachable state [Update] does not panic. *)
Lemma reachable_Update w msg :
  reachable w ->
  exists gl m cmds, Update (globals w) (model w) msg = Some (gl, m, cmds).
Proof.
  intros Hr. apply reachable_invariant in Hr.
  destruct (invariant_Update w msg Hr) as (gl & m & cmds & Hu & _). eauto.
Qed.

(** ** The event loop *)

Lemma deliver_reachable fuel :
  forall pending w,
    reachable w ->
    match deliver fuel pending w with
    | Idle w' | QuitReceived w' => reachable w'
    | UpdatePanicked => False
    | CascadeTooLong => True
    end.
Proof.
  induction fuel as [|fuel IH]; intros pending w Hr.
  - destruct pending as [|msg rest]; simpl; [exact Hr|].
    destruct msg; simpl; auto.
  - destruct pending as [|msg rest]; simpl; [exact Hr|].
    destruct (reachable_Update w msg Hr) as (gl & m & cmds & Hu).
    rewrite Hu.
    assert (Hr' : reachable {| globals := gl; model := m |})
      by (eapply reachable_update; eauto).
    destruct msg; try exact Hr; apply IH; exact Hr'.
Qed.

Lemma eventLoop_reachable events :
  forall w,
    reachable w ->
    exists w', (eventLoop events w = Returned w' \/ eventLoop events w = Waiting w') /\
               reachable w'.
Proof.
  induction events as [|ev rest IH]; intros w Hr; cbn [eventLoop].
  - eauto.
  - pose proof (deliver_reachable cascade [ev] w Hr) as Hd.
    pose proof (cascade_suffices ev w) as Hf.
    destruct (deliver cascade [ev] w) as [w' | w' | | ]; try contradiction.
    + apply IH; assumption.
    + eauto.
Qed.

(** What the loop does with a longer list of events is decided by the
    shorter one as soon as the loop has stopped waiting. *)
Lemma eventLoop_app es1 es2 :
  forall w,
    eventLoop (es1 ++ es2) w =
    match eventLoop es1 w with
    | Waiting w' => eventLoop es2 w'
    | r => r
    end.
Proof.
  induction es1 as [|ev rest IH]; intros w; cbn [eventLoop app].
  - reflexivity.
  - destruct (deliver cascade [ev] w); try reflexivity. apply IH.
Qed.

Lemma run_eventLoop events :
  run events =
  eventLoop events
    {| globals := globals0;
       model := with_form
                  (huh.with_group
                     {| huh.fields :=
                          [ huh.Focus (huh.WithPosition true false
                              (huh.NewInput "Summary:" addr_summary globals0));
                            huh.WithPosition false true
                              (huh.NewText "Description:" addr_description globals0) ];
                        huh.Page := 0 |}
                     (form (NewModel globals0)))
                  (NewModel globals0) |}.
Proof. reflexivity. Qed.

Lemma run_app es1 es2 :
  run (es1 ++ es2) =
  match run es1 with
  | Waiting w' => eventLoop es2 w'
  | r => r
  end.
Proof. rewrite !run_eventLoop. apply eventLoop_app. Qed.

(** A run neither panics nor runs out of fuel: it has returned, or it is
    waiting for the next event. *)
Lemma run_total events :
  exists w, (run events = Returned w \/ run events = Waiting w) /\ reachable w.
Proof.
  rewrite run_eventLoop.
  apply eventLoop_reachable.
  eapply reachable_init. reflexivity.
Qed.

(** So the two outcomes of [main] that stand for them never occur. *)
Lemma main_has_no_UI_failure env :
  termination (main env) <> UICrash /\ termination (main env) <> UIUnfinished.
Proof.
  unfold main.
  destruct (UserHomeDir env); [split; discriminate|].
  destruct (ReadFile env _); [split; discriminate|].
  destruct (yaml_Unmarshal env _); [split; discriminate|].
  destruct (startup env) as [e|] eqn:Hs.
  { simpl. split; discriminate. }
  destruct (run_total (events env)) as (w & Hrun & _).
  unfold run, world0 in Hrun.
  destruct Hrun as [-> | ->]; [|split; discriminate].
  destruct (NewClient env _ _); [|split; discriminate].
  destruct (jira.Issue_Create _ _); split; discriminate.
Qed.

(** ** The form's state, the quit message and the loop *)

Lemma FormState_eqb_eq a b : huh.FormState_eqb a b = true <-> a = b.
Proof. destruct a, b; simpl; split; congruence. Qed.

(** An update that leaves the form completed asks the runtime to quit. *)
Lemma Update_completed_quits gl m msg gl' m' cmds :
  Update gl m msg = Some (gl', m', cmds) ->
  huh.State (form m') = huh.StateCompleted ->
  In tea.QuitMsg cmds.
Proof.
  intros Hu Hst.
  assert (Hp : forall m0,
    (huh.Form_Update gl (form m0) msg ≫= (fun '(gl', f, cmd) =>
       let m := with_form f m0 in
       let cmds := cmd in
       let cmds :=
         if huh.FormState_eqb (huh.State (form m)) huh.StateCompleted
         then (cmds ++ [tea.Quit])%list else cmds in
       Some (gl', m, cmds))) = Some (gl', m', cmds) ->
    In tea.QuitMsg cmds).
  { intros m0 Hr.
    destruct (huh.Form_Update gl (form m0) msg) as [[[gl1 f1] c1]|]; simpl in Hr;
      [|discriminate].
    destruct (huh.FormState_eqb (huh.State f1) huh.StateCompleted) eqn:He;
      injection Hr as <- <- <-.
    - apply in_or_app. right. left. reflexivity.
    - simpl in Hst. apply FormState_eqb_eq in Hst. congruence. }
  unfold Update in Hu.
  destruct msg as [W H | k | | | | | ]; try (apply (Hp _ Hu)).
  destruct (is_quit_key k); [|apply (Hp _ Hu)].
  injection Hu as <- <- <-. left. reflexivity.
Qed.

Lemma deliver_idle_normal fuel :
  forall pending w w',
    reachable w ->
    huh.State (form (model w)) = huh.StateNormal \/ In tea.QuitMsg pending ->
    deliver fuel pending w = Idle w' ->
    huh.State (form (model w')) = huh.StateNormal.
Proof.
  induction fuel as [|fuel IH]; intros pending w w' Hr Hst Hd.
  - destruct pending as [|msg rest]; simpl in Hd.
    + injection Hd as <-. destruct Hst as [Hst | []]. exact Hst.
    + destruct msg; discriminate.
  - destruct pending as [|msg rest]; simpl in Hd.
    + injection Hd as <-. destruct Hst as [Hst | []]. exact Hst.
    + destruct (Update (globals w) (model w) msg) as [[[gl m] cmds]|] eqn:Hu;
        [|destruct msg; discriminate].
      assert (Hr' : reachable {| globals := gl; model := m |})
        by (eapply reachable_update; eauto).
      assert (Hnext : huh.State (form m) = huh.StateNormal \/
                      In tea.QuitMsg (rest ++ cmds)).
      { destruct (huh.State (form m)) eqn:Hm.
        - left. reflexivity.
        - right. apply in_or_app. right.
          eapply Update_completed_quits; eauto.
        - apply reachable_invariant in Hr'.
          destruct Hr' as (_ & _ & _ & Hna & _). simpl in Hna. congruence. }
      destruct msg; try discriminate;
        (eapply (IH _ {| globals := gl; model := m |}); [exact Hr' | exact Hnext | exact Hd]).
Qed.

Lemma eventLoop_waiting_normal events :
  forall w w',
    reachable w ->
    huh.State (form (model w)) = huh.StateNormal ->
    eventLoop events w = Waiting w' ->
    reachable w' /\ huh.State (form (model w')) = huh.StateNormal.
Proof.
  induction events as [|ev rest IH]; intros w w' Hr Hst Hl; cbn [eventLoop] in Hl.
  - injection Hl as <-. split; assumption.
  - pose proof (deliver_reachable cascade [ev] w Hr) as Hd.
    destruct (deliver cascade [ev] w) as [w1 | w1 | | ] eqn:He; try discriminate.
    apply (IH w1 w' Hd); [|exact Hl].
    eapply deliver_idle_normal; [exact Hr | left; exact Hst | exact He].
Qed.

Lemma run_waiting_normal events w :
  run events = Waiting w ->
  reachable w /\ huh.State (form (model w)) = huh.StateNormal.
Proof.
  rewrite run_eventLoop.
  apply eventLoop_waiting_normal.
  - eapply reachable_init. reflexivity.
  - reflexivity.
Qed.

Lemma quit_key_Update gl m k :
  is_quit_key k = true -> Update gl m (tea.KeyMsg k) = Some (gl, m, [tea.Quit]).
Proof. intros Hk. unfold Update. rewrite Hk. reflexivity. Qed.

(** One turn of the loop. *)
Lemma deliver_step fuel msg rest w gl m cmds :
  msg <> tea.QuitMsg ->
  Update (globals w) (model w) msg = Some (gl, m, cmds) ->
  deliver (S fuel) (msg :: rest) w =
  deliver fuel (rest ++ cmds) {| globals := gl; model := m |}.
Proof.
  intros Hq Hu. cbn [deliver]. rewrite Hu. destruct msg; congruence.
Qed.

Lemma deliver_quit fuel rest w : deliver fuel (tea.QuitMsg :: rest) w = QuitReceived w.
Proof. destruct fuel; reflexivity. Qed.

Lemma deliver_nothing fuel w : deliver fuel [] w = Idle w.
Proof. destruct fuel; reflexivity. Qed.

Lemma quit_key_returns w k :
  is_quit_key k = true -> deliver cascade [tea.KeyMsg k] w = QuitReceived w.
Proof.
  intros Hk. unfold cascade.
  erewrite deliver_step; [|discriminate|apply quit_key_Update; exact Hk].
  simpl app. rewrite deliver_quit. destruct w; reflexivity.
Qed.

(** ** C1: cancellation and the Ticket Submitter *)

(** C1, as stated, fails: a run in which the operator types "Bu" and then
    presses escape is a cancelled run, and [main] still calls
    [Issue.Create]. *)
Lemma cancel_reaches_submitter :
  ~ (terminal (run_of (sample_env cancel_mid_entry)) = Some cancelled ->
     created (main (sample_env cancel_mid_entry)) = []).
Proof.
  intros H.
  assert (Hc : terminal (run_of (sample_env cancel_mid_entry)) = Some cancelled)
    by (vm_compute; reflexivity).
  specialize (H Hc). vm_compute in H. discriminate.
Qed.

(** C1 (amended): [Issue.Create] is called at most once in a run; it is
    called only after the terminal program has returned without error, and
    then, given a client, it is called with the issue built from the two
    variables as the run left them, whether the form was completed or
    cancelled: a cancel key does not keep [main] from submitting. *)
Theorem submitter_follows_every_returned_run (env : Env) :
  (List.length (created (main env)) <= 1)%nat /\
  (forall i, In i (created (main env)) ->
     exists c w, config_of env = Some c /\ run_of env = Returned w /\
                 i = issue_of c (globals w)) /\
  (forall c w client,
     config_of env = Some c ->
     run_of env = Returned w ->
     NewClient env {| jira.Username := Username c; jira.Password := ApiKey c |}
       (JiraUrl c) = Some client ->
     created (main env) = [issue_of c (globals w)]).
Proof.
  unfold main, config_of, run_of, issue_of.
  destruct (UserHomeDir env) as [e|dirname]; simpl.
  { repeat split; [lia | intros i [] | discriminate]. }
  destruct (ReadFile env _) as [e|f]; simpl.
  { repeat split; [lia | intros i [] | discriminate]. }
  destruct (yaml_Unmarshal env f) as [e|c]; simpl.
  { repeat split; [lia | intros i [] | discriminate]. }
  destruct (Program_Run (startup env) (events env) world0) as [w|e|w| |] eqn:Hrun;
    fold world0 in Hrun; unfold world0 in *; rewrite Hrun; simpl;
    try (repeat split; [lia | intros i [] | intros; discriminate]).
  destruct (NewClient env _ (JiraUrl c)) as [client|] eqn:Hcl; simpl.
  - destruct (jira.Issue_Create client _) as [e|issue]; simpl;
      (repeat split;
       [ lia
       | intros i [<- | []]; exists c, w; auto
       | intros c' w' client' [= <-] [= <-] _; reflexivity ]).
  - repeat split; [lia | intros i [] |].
    intros c' w' client' [= <-] _ Hcl'. congruence.
Qed.

Lemma submitter_follows_every_returned_run_witness :
  terminal (run_of (sample_env cancel_mid_entry)) = Some cancelled /\
  created (main (sample_env cancel_mid_entry)) =
    [issue_of sample_config {| summary := "Bu"; description := "" |}].
Proof.
  split; [vm_compute; reflexivity|].
  destruct (submitter_follows_every_returned_run (sample_env cancel_mid_entry))
    as (_ & _ & H).
  eapply (H sample_config
            {| globals := {| summary := "Bu"; description := "" |};
               model := _ |} accepting_client);
    vm_compute; reflexivity.
Defined.

(** ** C3: the exit status after a cancellation *)

(** C3, as stated, fails: after the same cancelled run, with a service that
    accepts the issue, the process prints the issue line and ends with
    status 0, exactly as it does after the completed run of the happy
    path. *)
Lemma cancel_exits_zero :
  ~ (terminal (run_of (sample_env cancel_mid_entry)) = Some cancelled ->
     exit_status (termination (main (sample_env cancel_mid_entry))) <> Some 0 \/
     stdout (main (sample_env cancel_mid_entry)) <>
       stdout (main (sample_env happy_path))).
Proof.
  intros H.
  assert (Hc : terminal (run_of (sample_env cancel_mid_entry)) = Some cancelled)
    by (vm_compute; reflexivity).
  destruct (H Hc) as [Hs | Ho].
  - apply Hs. vm_compute. reflexivity.
  - apply Ho. vm_compute. reflexivity.
Qed.

(** C3 (amended): when the terminal program has returned, cancelled or
    completed alike, the process goes on to the submission and ends as the
    submission does: status 0 when [Issue.Create] succeeds, a panic (status
    2) when it fails or when there is no client.  Cancellation has no exit
    code or message of its own. *)
Theorem exit_status_follows_submission (env : Env) (c : Config) (w : World) :
  config_of env = Some c ->
  run_of env = Returned w ->
  termination (main env) =
    match NewClient env {| jira.Username := Username c; jira.Password := ApiKey c |}
            (JiraUrl c) with
    | None => Panic nil_dereference
    | Some client =>
        match jira.Issue_Create client (issue_of c (globals w)) with
        | inl err => Panic err
        | inr _ => Exit 0
        end
    end.
Proof.
  unfold main, config_of, run_of, issue_of.
  destruct (UserHomeDir env) as [e|dirname]; [discriminate|].
  destruct (ReadFile env _) as [e|f]; [discriminate|].
  destruct (yaml_Unmarshal env f) as [e|c']; [discriminate|].
  intros [= ->] Hrun. unfold world0 in Hrun. rewrite Hrun.
  destruct (NewClient env _ (JiraUrl c)) as [client|]; [|reflexivity].
  destruct (jira.Issue_Create client _); reflexivity.
Qed.

Lemma exit_status_follows_submission_witness :
  terminal (run_of (sample_env cancel_mid_entry)) = Some cancelled /\
  termination (main (sample_env cancel_mid_entry)) = Exit 0.
Proof.
  split; [vm_compute; reflexivity|].
  rewrite (exit_status_follows_submission (sample_env cancel_mid_entry) sample_config
             {| globals := {| summary := "Bu"; description := "" |};
                model := match run_of (sample_env cancel_mid_entry) with
                         | Returned w => model w
                         | _ => NewModel globals0
                         end |});
    vm_compute; reflexivity.
Defined.

(** ** C10: what every created issue carries *)

(** C10: whatever the environment, the events and the configuration, each
    issue handed to [Issue.Create] has the type "Bug", the project key of
    the configuration and its custom fields, as they were read. *)
Theorem created_issue_is_a_Bug_of_the_configured_project (env : Env) (i : jira.Issue) :
  In i (created (main env)) ->
  exists c flds,
    config_of env = Some c /\
    jira.Fields i = Some flds /\
    jira.Name (jira.Type_ flds) = "Bug" /\
    jira.Key (jira.Project_ flds) = Project (CreateIssue c) /\
    jira.Unknowns flds = CustomFields (CreateIssue c).
Proof.
  unfold main, config_of.
  destruct (UserHomeDir env) as [e|dirname]; [intros []|].
  destruct (ReadFile env _) as [e|f]; [intros []|].
  destruct (yaml_Unmarshal env f) as [e|c]; [intros []|].
  destruct (Program_Run _ _ _) as [w|e|w| |]; try (intros []).
  destruct (NewClient env _ (JiraUrl c)) as [client|]; [|intros []].
  destruct (jira.Issue_Create client _);
    (intros [<- | []]; eexists c, _; repeat split; reflexivity).
Qed.

Lemma created_issue_is_a_Bug_of_the_configured_project_witness :
  exists c flds,
    config_of (sample_env happy_path) = Some c /\
    jira.Fields (issue_of sample_config
                   {| summary := "Bug in login"; description := "Steps: ..." |})
      = Some flds /\
    jira.Name (jira.Type_ flds) = "Bug" /\
    jira.Key (jira.Project_ flds) = Project (CreateIssue c) /\
    jira.Unknowns flds = CustomFields (CreateIssue c).
Proof.
  apply (created_issue_is_a_Bug_of_the_configured_project (sample_env happy_path)).
  vm_compute. left. reflexivity.
Defined.

(** ** C4: a resize above the maximum width *)

(** C4, as stated, fails: after a resize to 200 columns the stored width is
    not [maxWidth]. *)
Lemma resize_does_not_store_maxWidth :
  ~ (forall gl m cmds,
       Update globals0 (NewModel globals0) (tea.WindowSizeMsg 200 50) = Some (gl, m, cmds) ->
       width m = maxWidth).
Proof.
  intros H.
  specialize (H globals0
                (with_width 155 (NewModel globals0)) [] eq_refl).
  vm_compute in H. discriminate.
Qed.

(** C4 (amended): in every reachable state, a resize to a width above
    [maxWidth] stores [maxWidth] less the horizontal frame size of the base
    style, that is 160 - 5 = 155; the variables and the whole form (field
    texts, errors, focus, state) stay as they were, and a form in its
    normal state issues no command, so the loop goes on. *)
Theorem resize_above_maxWidth (w : World) (W H : Z) :
  reachable w ->
  W > maxWidth ->
  exists m' cmds,
    Update (globals w) (model w) (tea.WindowSizeMsg W H) = Some (globals w, m', cmds) /\
    width m' = maxWidth - lipgloss.GetHorizontalFrameSize (Base (styles (model w))) /\
    width m' = 155 /\
    form m' = form (model w) /\
    (huh.State (form (model w)) = huh.StateNormal -> cmds = []).
Proof.
  intros Hr HW. apply reachable_invariant in Hr. revert Hr.
  break_world w. unfold invariant, focus. simpl.
  intros (Hsty & Hlg & Hst & HSt & Hpg & f0 & f1 & Hfs & B0 & B1).
  break_bound B0. break_bound B1.
  assert (Hmin : Z.min W maxWidth = 160) by (unfold maxWidth in *; lia).
  assert (Hpage : pg = 0%nat \/ pg = 1%nat) by lia.
  destruct gl as [s d].
  unfold Update, huh.Form_Update. rewrite Hmin. simpl.
  destruct St; try congruence; simpl.
  all: destruct Hpage as [-> | ->]; simpl.
  all: repeat (progress (unfold_form; simpl)).
  all: repeat match goal with |- context [negb ?b] => is_var b; destruct b; simpl end.
  all: eexists _, _; split; [reflexivity|]; simpl.
  all: repeat split; try reflexivity; try discriminate.
Qed.

Lemma resize_above_maxWidth_witness :
  exists m' cmds,
    Update globals0 (NewModel globals0) (tea.WindowSizeMsg 200 50) = Some (globals0, m', cmds) /\
    width m' = maxWidth - lipgloss.GetHorizontalFrameSize (Base (styles (NewModel globals0))) /\
    width m' = 155 /\
    form m' = form (NewModel globals0) /\
    (huh.State (form (NewModel globals0)) = huh.StateNormal -> cmds = []).
Proof.
  apply (resize_above_maxWidth world0 200 50 reachable_new).
  reflexivity.
Defined.

(** ** C5: the terminal flag *)





(** ** C6: the happy path *)

(** C6: typing "Bug in login", enter, "Steps: ...", enter makes the loop
    return with the form completed, the two texts in the fields and in the
    variables [main] reads. *)
Theorem happy_path_completes :
  exists w,
    run happy_path = Returned w /\
    terminal (run happy_path) = Some completed /\
    huh.State (form (model w)) = huh.StateCompleted /\
    field_text (model w) 0 = Some "Bug in login" /\
    field_text (model w) 1 = Some "Steps: ..." /\
    globals w = {| summary := "Bug in login"; description := "Steps: ..." |}.
Proof.
  eexists. split; [vm_compute; reflexivity|].
  repeat split; vm_compute; reflexivity.
Qed.

(** ** C7: the header and the footer of the view *)

Lemma append_empty_r (s : string) : s +:+ "" = s.
Proof.
  induction s as [|c s IH]; [reflexivity|].
  change (String c (s +:+ "") = String c s). f_equal. exact IH.
Qed.

Lemma append_associative (a b c : string) : (a +:+ b) +:+ c = a +:+ (b +:+ c).
Proof.
  induction a as [|x a IH]; [reflexivity|].
  change (String x ((a +:+ b) +:+ c) = String x (a +:+ (b +:+ c))). f_equal. exact IH.
Qed.

(** The loop of [errorView] yields the messages one after the other. *)
Lemma fold_append_concat (errs : list string) :
  forall acc, fold_left (fun s err => s +:+ err) errs acc = acc +:+ String.concat "" errs.
Proof.
  induction errs as [|e rest IH]; intros acc; simpl.
  - symmetry. apply append_empty_r.
  - rewrite IH. destruct rest as [|e' rest'].
    + cbn [String.concat]. apply append_empty_r.
    + rewrite append_associative. reflexivity.
Qed.

Lemma errorView_concat (m : Model) :
  errorView m = String.concat "" (huh.Errors (form m)).
Proof. unfold errorView. rewrite fold_append_concat. reflexivity. Qed.

Lemma Errors_nil_iff (f : huh.Form) :
  huh.Errors f = [] <->
  forall fld, In fld (huh.fields (huh.group f)) -> huh.err fld = None.
Proof.
  unfold huh.Errors, huh.Group_Errors.
  induction (huh.fields (huh.group f)) as [|x l IH]; simpl.
  - split; [intros _ fld [] | reflexivity].
  - destruct (huh.err x) as [e|] eqn:Hx; simpl.
    + split; [discriminate|]. intros H. specialize (H x (or_introl eq_refl)). congruence.
    + rewrite IH. split.
      * intros H fld [<- | Hin]; auto.
      * intros H fld Hin. apply H. right. exact Hin.
Qed.

(** C7: if some field carries a validation error, the view is the base
    style around three parts: a line placed at the left of the stored
    width with a filler of red slashes, holding the error messages of the
    fields, one after the other, in the error header style; the form; and
    a second such line, holding the empty text in the error header style,
    in place of the help line.  If no field carries one, the two lines are
    filled with indigo slashes and hold, in the normal header style, the
    title of the program and the form's short help.  The error header style
    is the normal one with red in place of indigo as its foreground. *)
Theorem View_substitutes_error_header_and_footer `{Rendering} (m : Model) :
  ((exists fld e, In fld (huh.fields (huh.group (form m))) /\ huh.err fld = Some e) ->
   View m =
     Style_Render (Base (styles m))
       (PlaceHorizontal (width m) lipgloss.Left
          (Style_Render (ErrorHeaderText (styles m))
             (String.concat "" (omap huh.err (huh.fields (huh.group (form m))))))
          [ lipgloss.WithWhitespaceChars "/";
            lipgloss.WithWhitespaceForeground
              (lipgloss.AdaptiveColor "#FE5F86" "#FE5F86") ] +:+
        newline +:+ Form_View (form m) +:+ newline +:+ newline +:+
        PlaceHorizontal (width m) lipgloss.Left
          (Style_Render (ErrorHeaderText (styles m)) "")
          [ lipgloss.WithWhitespaceChars "/";
            lipgloss.WithWhitespaceForeground
              (lipgloss.AdaptiveColor "#FE5F86" "#FE5F86") ])) /\
  ((forall fld, In fld (huh.fields (huh.group (form m))) -> huh.err fld = None) ->
   View m =
     Style_Render (Base (styles m))
       (PlaceHorizontal (width m) lipgloss.Left
          (Style_Render (HeaderText (styles m)) "Create a JIRA Ticket")
          [ lipgloss.WithWhitespaceChars "/";
            lipgloss.WithWhitespaceForeground
              (lipgloss.AdaptiveColor "#5A56E0" "#7571F9") ] +:+
        newline +:+ Form_View (form m) +:+ newline +:+ newline +:+
        PlaceHorizontal (width m) lipgloss.Left
          (Style_Render (HeaderText (styles m)) (Form_ShortHelpView (form m)))
          [ lipgloss.WithWhitespaceChars "/";
            lipgloss.WithWhitespaceForeground
              (lipgloss.AdaptiveColor "#5A56E0" "#7571F9") ])) /\
  (forall lg,
     ErrorHeaderText (NewStyles lg) =
       lipgloss.Foreground (lipgloss.AdaptiveColor "#FE5F86" "#FE5F86")
         (HeaderText (NewStyles lg)) /\
     lipgloss.foreground (HeaderText (NewStyles lg)) =
       Some (lipgloss.AdaptiveColor "#5A56E0" "#7571F9") /\
     lipgloss.foreground (ErrorHeaderText (NewStyles lg)) <>
       lipgloss.foreground (HeaderText (NewStyles lg))).
Proof.
  split; [|split].
  - intros (fld & e & Hin & He).
    unfold View. rewrite errorView_concat.
    destruct (huh.Errors (form m)) as [|x l] eqn:Herr.
    + pose proof (proj1 (Errors_nil_iff _) Herr fld Hin) as Hn. congruence.
    + change (omap huh.err (huh.fields (huh.group (form m)))) with (huh.Errors (form m)).
      rewrite Herr. reflexivity.
  - intros Hnone. unfold View.
    rewrite (proj2 (Errors_nil_iff _) Hnone). reflexivity.
  - intros lg. split; [reflexivity|]. split; [reflexivity|].
    simpl. discriminate.
Qed.

Lemma View_substitutes_error_header_and_footer_witness :
  @View marked model_with_error =
    ("[#FE5F86]must not be empty" +:+ "/[#FE5F86]") +:+ newline +:+
    ("Name: " +:+ newline) +:+ newline +:+ newline +:+
    ("[#FE5F86]" +:+ "/[#FE5F86]") /\
  @View marked (NewModel globals0) =
    ("[#7571F9]Create a JIRA Ticket" +:+ "/[#7571F9]") +:+ newline +:+
    ("Summary: " +:+ newline +:+ "Description: " +:+ newline) +:+
    newline +:+ newline +:+
    ("[#7571F9]enter next" +:+ "/[#7571F9]").
Proof.
  split.
  - rewrite (proj1 (@View_substitutes_error_header_and_footer marked model_with_error)).
    + vm_compute. reflexivity.
    + eexists _, _. split; [left; reflexivity | reflexivity].
  - rewrite (proj1 (proj2 (@View_substitutes_error_header_and_footer marked
                             (NewModel globals0)))).
    + vm_compute. reflexivity.
    + intros fld [<- | [<- | []]]; reflexivity.
Defined.

(** ** C2: advancing from a field *)

(** What a field makes of a key: it asks for the next field only when its
    validator accepts the text, and when it ends up with an error it has
    asked for nothing. *)
Lemma Field_react_key f k f' cmds :
  huh.Field_react f (tea.KeyMsg k) = (f', cmds) ->
  (In tea.nextFieldMsg cmds -> huh.validate f' (huh.text f') = None /\ huh.err f' = None) /\
  (forall e, huh.err f' = Some e -> cmds = [] /\ huh.validate f' (huh.text f') = Some e).
Proof.
  unfold huh.Field_react.
  set (g := huh.with_err None (huh.widget_Update f (tea.KeyMsg k))).
  simpl. intros H.
  repeat case_match; injection H as <- <-; simpl in *;
    (split; [intros Hin | intros e0 He]);
    try (destruct Hin as [Hin | []]; discriminate);
    try discriminate;
    try (split; [congruence | reflexivity]);
    try (injection He as <-; split; [reflexivity | assumption]);
    try contradiction.
Qed.

(** The loop over the fields, for a key: only the current field is
    updated. *)
Lemma updateFields_key page k fs :
  forall i gl,
    huh.updateFields page i (tea.KeyMsg k) gl fs =
    match (if decide (i <= page)%nat then fs !! (page - i)%nat else None) with
    | Some f =>
        let '(gl', f', c) := huh.Field_Update gl f (tea.KeyMsg k) in
        (gl', <[(page - i)%nat := f']> fs, c)
    | None => (gl, fs, [])
    end.
Proof.
  induction fs as [|f rest IH]; intros i gl.
  - simpl. destruct (decide _); reflexivity.
  - cbn [huh.updateFields tea.is_KeyMsg].
    destruct (Nat.eqb_spec page i) as [->|Hne].
    + destruct (decide (i <= i)%nat); [|lia].
      rewrite Nat.sub_diag. simpl.
      destruct (huh.Field_Update gl f (tea.KeyMsg k)) as [[gl2 f2] c2].
      rewrite IH. destruct (decide (S i <= i)%nat); [lia|].
      rewrite app_nil_r. reflexivity.
    + rewrite IH. destruct (decide (i <= page)%nat) as [Hle|Hgt].
      * destruct (decide (S i <= page)%nat); [|lia].
        replace (page - i)%nat with (S (page - S i)) by lia. simpl.
        destruct (rest !! (page - S i)%nat) as [f'|]; [|reflexivity].
        destruct (huh.Field_Update gl f' (tea.KeyMsg k)) as [[gl2 f2] c2].
        reflexivity.
      * destruct (decide (S i <= page)%nat); [lia|]. reflexivity.
Qed.

(** C2, as stated, fails: after an advance from the empty title the title
    field carries no error and the focus is not on it. *)
Lemma empty_title_is_not_blocked :
  ~ (exists w e,
       run empty_title_advance = Waiting w /\
       field_err (model w) 0 = Some (Some e) /\
       focus (model w) = 0%nat).
Proof.
  intros (w & e & Hrun & Herr & Hfocus).
  vm_compute in Hrun. injection Hrun as <-.
  vm_compute in Hfocus. discriminate.
Qed.

(** C2 (amended).  For any group of fields: a key leaves the focus where it
    is; it makes the current field ask for the next one only if that
    field's validator accepts its text, and a field left with an error has
    asked for nothing.  In this program no field has a validator that
    rejects anything, so the advance from the empty title is accepted: the
    run stays active, no field carries an error and the focus is on the
    description. *)
Theorem advance_only_if_validation_passes :
  (forall gl g k gl' g' cmds,
     huh.Group_Update gl g (tea.KeyMsg k) = Some (gl', g', cmds) ->
     huh.Page g' = huh.Page g /\
     (In tea.nextFieldMsg cmds ->
      exists fld, huh.fields g' !! huh.Page g = Some fld /\
                  huh.validate fld (huh.text fld) = None /\ huh.err fld = None) /\
     (forall fld e,
        huh.fields g' !! huh.Page g = Some fld -> huh.err fld = Some e ->
        cmds = [] /\ huh.validate fld (huh.text fld) = Some e)) /\
  (forall w fld s,
     reachable w -> In fld (huh.fields (huh.group (form (model w)))) ->
     huh.validate fld s = None) /\
  (exists w,
     run empty_title_advance = Waiting w /\
     terminal (run empty_title_advance) = Some active /\
     huh.Errors (form (model w)) = [] /\
     field_text (model w) 0 = Some "" /\
     focus (model w) = 1%nat).
Proof.
  split; [|split].
  - intros gl g k gl' g' cmds. unfold huh.Group_Update.
    rewrite updateFields_key. destruct (decide (0 <= huh.Page g)%nat); [|lia].
    rewrite Nat.sub_0_r.
    destruct (huh.fields g !! huh.Page g) as [f|] eqn:Hlook.
    + unfold huh.Field_Update.
      destruct (huh.Field_react f (tea.KeyMsg k)) as [f' c] eqn:Hreact.
      intros [= <- <- <-]. simpl.
      apply Field_react_key in Hreact as [Hnext Herr].
      assert (Hf' : <[huh.Page g := f']> (huh.fields g) !! huh.Page g = Some f').
      { apply list_lookup_insert_eq. eapply lookup_lt_Some; eauto. }
      split; [reflexivity|]. split.
      * intros Hin. exists f'. split; [exact Hf'|]. apply Hnext. exact Hin.
      * intros fld e Hfld He. rewrite Hf' in Hfld. injection Hfld as <-.
        apply Herr. exact He.
    + intros [= <- <- <-]. simpl. split; [reflexivity|]. split.
      * intros [].
      * intros fld e Hfld. rewrite Hlook in Hfld. discriminate.
  - intros w fld s Hr Hin. apply reachable_invariant in Hr.
    destruct Hr as (_ & _ & _ & _ & _ & f0 & f1 & Hfs & B0 & B1).
    rewrite Hfs in Hin. unfold bound in B0, B1.
    destruct B0 as (_ & _ & _ & _ & _ & Hv0 & _), B1 as (_ & _ & _ & _ & _ & Hv1 & _).
    destruct Hin as [<- | [<- | []]]; [rewrite Hv0 | rewrite Hv1]; reflexivity.
  - eexists. split; [vm_compute; reflexivity|].
    repeat split; vm_compute; reflexivity.
Qed.

Lemma advance_only_if_validation_passes_witness :
  exists fld,
    [required_field "Bug"] !! 0%nat = Some fld /\
    huh.validate fld (huh.text fld) = None /\ huh.err fld = None.
Proof.
  destruct advance_only_if_validation_passes as [H _].
  destruct (H globals0 (huh.NewGroup [required_field "Bug"])
              {| tea.Type_ := tea.KeyEnter; tea.Runes := "" |}
              {| summary := "Bug"; description := "" |}
              (huh.NewGroup [required_field "Bug"])
              [tea.nextFieldMsg] eq_refl) as (_ & Hnext & _).
  apply Hnext. left. reflexivity.
Defined.

(** ** C9: the key "q" *)

(** C9, as stated, fails in its second half: a key message that carries
    the runes "qa" (pasted text) is handed to the form, and the title then
    has a q in it. *)
Lemma pasted_q_reaches_the_title :
  ~ (forall w, run [pasted_q] = Waiting w -> has_q (summary (globals w)) = false).
Proof.
  intros H.
  specialize (H {| globals := {| summary := "qa"; description := "" |};
                   model := match run [pasted_q] with
                            | Waiting w => model w
                            | _ => NewModel globals0
                            end |}).
  assert (Hrun : run [pasted_q] =
                 Waiting {| globals := {| summary := "qa"; description := "" |};
                            model := match run [pasted_q] with
                                     | Waiting w => model w
                                     | _ => NewModel globals0
                                     end |})
    by (vm_compute; reflexivity).
  specialize (H Hrun). vm_compute in H. discriminate.
Qed.

(** C9 (amended): a key message whose string is exactly "q" is taken as a
    quit key before the form sees it: in every state [Update] answers with
    the quit command and changes neither the model nor the variables, and
    the loop returns.  So a single key press that leaves the loop running
    is never the letter q.  A key message with several runes is compared as
    a whole: "qa" is not a quit key, goes to the form, and is inserted. *)
Theorem q_key_quits_before_the_form :
  (forall gl m k,
     tea.Key_String k = "q" ->
     Update gl m (tea.KeyMsg k) = Some (gl, m, [tea.Quit])) /\
  (forall w k,
     tea.Key_String k = "q" ->
     deliver cascade [tea.KeyMsg k] w = QuitReceived w) /\
  (forall w c w',
     deliver cascade [keystroke c] w = Idle w' -> c <> "q"%char) /\
  (exists w,
     run [pasted_q] = Waiting w /\
     field_text (model w) 0 = Some "qa" /\ summary (globals w) = "qa").
Proof.
  assert (Hup : forall gl m k,
            tea.Key_String k = "q" ->
            Update gl m (tea.KeyMsg k) = Some (gl, m, [tea.Quit])).
  { intros gl m k Hk. unfold Update.
    assert (Hq : is_quit_key k = true) by (apply is_quit_key_spec; auto).
    rewrite Hq. reflexivity. }
  assert (Hdel : forall w k,
            tea.Key_String k = "q" ->
            deliver cascade [tea.KeyMsg k] w = QuitReceived w).
  { intros [gl m] k Hk. unfold cascade. cbn [deliver globals model].
    rewrite (Hup gl m k Hk). reflexivity. }
  split; [exact Hup|]. split; [exact Hdel|]. split.
  - intros w c w' Hidle ->.
    change (keystroke "q") with (runes "q") in Hidle.
    unfold runes in Hidle.
    rewrite (Hdel w {| tea.Type_ := tea.KeyRunes; tea.Runes := "q" |} eq_refl) in Hidle.
    discriminate.
  - eexists. split; [vm_compute; reflexivity|].
    split; vm_compute; reflexivity.
Qed.

Lemma q_key_quits_before_the_form_witness :
  Update {| summary := "Bu"; description := "" |} (NewModel globals0) (keystroke "q") =
    Some ({| summary := "Bu"; description := "" |}, NewModel globals0, [tea.Quit]) /\
  terminal (run (typing "Bu" ++ [keystroke "q"])) = Some cancelled.
Proof.
  split.
  - apply (proj1 q_key_quits_before_the_form). reflexivity.
  - vm_compute. reflexivity.
Defined.


(** * Further properties of the program *)

(** ** How [main] ends *)



(** X2: when the configuration cannot be loaded, the outcome does not
    depend on the terminal, the events or the Jira client: the form is
    never started. *)
Theorem config_failure_ignores_the_terminal (env env' : Env) :
  UserHomeDir env' = UserHomeDir env ->
  filepath_Join env' = filepath_Join env ->
  ReadFile env' = ReadFile env ->
  yaml_Unmarshal env' = yaml_Unmarshal env ->
  config_of env = None ->
  main env' = main env.
Proof.
  unfold main, config_of. intros -> -> -> ->.
  destruct (UserHomeDir env) as [e|dirname]; [reflexivity|].
  destruct (ReadFile env _) as [e|f]; [reflexivity|].
  destruct (yaml_Unmarshal env f) as [e|c]; [reflexivity|discriminate].
Qed.

Lemma config_failure_ignores_the_terminal_witness :
  main (with_events cancel_mid_entry
          (with_UserHomeDir (inl "$HOME is not defined") (sample_env happy_path)))
  = main (with_UserHomeDir (inl "$HOME is not defined") (sample_env happy_path)).
Proof.
  apply config_failure_ignores_the_terminal; reflexivity.
Defined.

(** X3: the process ends with status 0 exactly when the configuration was
    loaded, the terminal program returned, a client could be built and
    [Issue.Create] accepted the issue.  Under these four conditions it has
    called [Issue.Create] once, with the issue built from the configuration
    and the variables, and has printed the key and the address of the
    created issue, and nothing else. *)
Theorem main_exits_0_iff_issue_created (env : Env) :
  (termination (main env) = Exit 0 <->
   exists c w client issue,
     config_of env = Some c /\
     run_of env = Returned w /\
     NewClient env (transport_of c) (JiraUrl c) = Some client /\
     jira.Issue_Create client (issue_of c (globals w)) = inr issue) /\
  (forall c w client issue,
     config_of env = Some c ->
     run_of env = Returned w ->
     NewClient env (transport_of c) (JiraUrl c) = Some client ->
     jira.Issue_Create client (issue_of c (globals w)) = inr issue ->
     stdout (main env) = [jira.Issue_Key issue +:+ ": " +:+ jira.Self issue +:+ newline] /\
     created (main env) = [issue_of c (globals w)]).
Proof.
  unfold main, config_of, run_of, oh_no, silent, transport_of, issue_of.
  destruct (UserHomeDir env) as [e|dirname]; simpl.
  { split; [split; [discriminate | intros (c & w & cl & i & H & _); discriminate]
           | intros c w cl i H; discriminate]. }
  destruct (ReadFile env _) as [e|f]; simpl.
  { split; [split; [discriminate | intros (c & w & cl & i & H & _); discriminate]
           | intros c w cl i H; discriminate]. }
  destruct (yaml_Unmarshal env f) as [e|c]; simpl.
  { split; [split; [discriminate | intros (c & w & cl & i & H & _); discriminate]
           | intros c w cl i H; discriminate]. }
  fold world0.
  destruct (Program_Run (startup env) (events env) world0) as [w|e|w| |]; simpl;
    try (split; [split; [discriminate
                        | intros (c' & w' & cl & i & _ & H & _); discriminate]
                | intros c' w' cl i _ H; discriminate]).
  destruct (NewClient env _ _) as [client|] eqn:Hcl; simpl.
  - destruct (jira.Issue_Create client _) as [e|issue] eqn:Hcr; simpl.
    + split; [split; [discriminate|] |].
      * intros (c' & w' & cl & i & [= <-] & [= <-] & Hcl' & Hcr').
        rewrite Hcl in Hcl'. injection Hcl' as <-. rewrite Hcr in Hcr'. discriminate.
      * intros c' w' cl i [= <-] [= <-] Hcl' Hcr'.
        rewrite Hcl in Hcl'. injection Hcl' as <-. rewrite Hcr in Hcr'. discriminate.
    + split; [split; [|reflexivity] |].
      * intros _. exists c, w, client, issue. repeat split; try reflexivity; assumption.
      * intros c' w' cl i [= <-] [= <-] Hcl' Hcr'.
        rewrite Hcl in Hcl'. injection Hcl' as <-. rewrite Hcr in Hcr'.
        injection Hcr' as <-. split; reflexivity.
  - split; [split; [discriminate|] |].
    + intros (c' & w' & cl & i & [= <-] & _ & Hcl' & _). rewrite Hcl in Hcl'. discriminate.
    + intros c' w' cl i [= <-] _ Hcl'. rewrite Hcl in Hcl'. discriminate.
Qed.

Lemma main_exits_0_iff_issue_created_witness :
  termination (main (sample_env happy_path)) = Exit 0 /\
  stdout (main (sample_env happy_path)) =
    ["OPS-1: https://jira.example.org/rest/api/2/issue/1" +:+ newline] /\
  created (main (sample_env happy_path)) =
    [issue_of sample_config {| summary := "Bug in login"; description := "Steps: ..." |}].
Proof.
  destruct (main_exits_0_iff_issue_created (sample_env happy_path)) as [Hiff Hout].
  split.
  - apply (proj2 Hiff).
    exists sample_config, (world_of (run happy_path)), accepting_client.
    eexists.
    repeat match goal with |- _ /\ _ => split end; vm_compute; reflexivity.
  - apply (Hout sample_config (world_of (run happy_path)) accepting_client
             {| jira.Issue_Key := "OPS-1";
                jira.Self := "https://jira.example.org/rest/api/2/issue/1";
                jira.Fields := jira.Fields
                  (issue_of sample_config
                     {| summary := "Bug in login"; description := "Steps: ..." |}) |});
      vm_compute; reflexivity.
Defined.

(** X4: a submission that fails is not retried and its input is not kept:
    when [Issue.Create] returns an error the process panics with that
    error, having called it once and printed nothing; when no client could
    be built (the error of [jira.NewClient] is dropped) it panics on the
    nil client without calling [Issue.Create] at all. *)
Theorem failed_submission_panics (env : Env) (c : Config) (w : World) :
  config_of env = Some c ->
  run_of env = Returned w ->
  (forall client err,
     NewClient env (transport_of c) (JiraUrl c) = Some client ->
     jira.Issue_Create client (issue_of c (globals w)) = inl err ->
     main env = {| stdout := []; created := [issue_of c (globals w)];
                   termination := Panic err |}) /\
  (NewClient env (transport_of c) (JiraUrl c) = None ->
   main env = {| stdout := []; created := []; termination := Panic nil_dereference |}).
Proof.
  unfold main, config_of, run_of, transport_of, issue_of, silent.
  destruct (UserHomeDir env) as [e|dirname]; [discriminate|].
  destruct (ReadFile env _) as [e|f]; [discriminate|].
  destruct (yaml_Unmarshal env f) as [e|c']; [discriminate|].
  intros [= ->] Hrun. unfold world0 in Hrun. rewrite Hrun. split.
  - intros client err -> Hcr. rewrite Hcr. reflexivity.
  - intros ->. reflexivity.
Qed.

Lemma failed_submission_panics_witness :
  main (with_NewClient (fun _ _ => Some rejecting_client) (sample_env happy_path)) =
    {| stdout := [];
       created := [issue_of sample_config
                     {| summary := "Bug in login"; description := "Steps: ..." |}];
       termination := Panic "401 Unauthorized" |} /\
  main (with_NewClient (fun _ _ => None) (sample_env happy_path)) =
    {| stdout := []; created := []; termination := Panic nil_dereference |}.
Proof.
  pose (w := {| globals := {| summary := "Bug in login"; description := "Steps: ..." |};
                model := match run happy_path with
                         | Returned w => model w
                         | _ => NewModel globals0
                         end |}).
  split.
  - apply (proj1 (failed_submission_panics
                    (with_NewClient (fun _ _ => Some rejecting_client) (sample_env happy_path))
                    sample_config w eq_refl ltac:(vm_compute; reflexivity))
             rejecting_client "401 Unauthorized"); reflexivity.
  - apply (proj2 (failed_submission_panics
                    (with_NewClient (fun _ _ => None) (sample_env happy_path))
                    sample_config w eq_refl ltac:(vm_compute; reflexivity)));
      reflexivity.
Defined.

(** ** What is submitted *)

Lemma run_of_Returned_reachable env w : run_of env = Returned w -> reachable w.
Proof.
  unfold run_of, Program_Run.
  destruct (startup env) as [e|] eqn:Hs; [discriminate|].
  intros Hrun.
  destruct (run_total (events env)) as (w0 & Hw0 & Hr).
  unfold run, Program_Run in Hw0. rewrite Hrun in Hw0.
  destruct Hw0 as [[= <-] | H0]; [exact Hr | discriminate].
Qed.

Lemma invariant_field_texts w :
  invariant w ->
  field_text (model w) 0 = Some (summary (globals w)) /\
  field_text (model w) 1 = Some (description (globals w)).
Proof.
  intros (_ & _ & _ & _ & _ & f0 & f1 & Hfs & B0 & B1).
  unfold field_text. rewrite Hfs. simpl.
  destruct B0 as (_ & -> & _), B1 as (_ & -> & _). split; reflexivity.
Qed.

(** X5: the summary and the description of a submitted issue are the texts
    the two fields of the form held when the terminal program returned:
    the variables [main] reads never lag behind the form. *)
Theorem submitted_texts_are_the_field_texts (env : Env) (i : jira.Issue)
  (flds : jira.IssueFields) :
  In i (created (main env)) ->
  jira.Fields i = Some flds ->
  exists w,
    run_of env = Returned w /\
    field_text (model w) 0 = Some (jira.Summary flds) /\
    field_text (model w) 1 = Some (jira.Description flds).
Proof.
  intros Hin Hflds.
  assert (Hw : exists c w, run_of env = Returned w /\ i = issue_of c (globals w)).
  { revert Hin. unfold main, run_of, issue_of.
    destruct (UserHomeDir env) as [e|dirname]; [intros []|].
    destruct (ReadFile env _) as [e|f]; [intros []|].
    destruct (yaml_Unmarshal env f) as [e|c]; [intros []|].
    fold world0.
    destruct (Program_Run _ _ _) as [w|e|w| |]; try (intros []).
    destruct (NewClient env _ (JiraUrl c)) as [client|]; [|intros []].
    destruct (jira.Issue_Create client _);
      (intros [<- | []]; exists c, w; split; reflexivity). }
  destruct Hw as (c & w & Hrun & ->).
  injection Hflds as <-. simpl.
  exists w. split; [exact Hrun|].
  apply invariant_field_texts, reachable_invariant, (run_of_Returned_reachable env).
  exact Hrun.
Qed.

Lemma submitted_texts_are_the_field_texts_witness :
  exists w,
    run_of (sample_env cancel_mid_entry) = Returned w /\
    field_text (model w) 0 = Some "Bu" /\
    field_text (model w) 1 = Some "".
Proof.
  apply (submitted_texts_are_the_field_texts (sample_env cancel_mid_entry)
           (issue_of sample_config {| summary := "Bu"; description := "" |})
           {| jira.Description := "";
              jira.Type_ := {| jira.Name := "Bug" |};
              jira.Project_ := {| jira.Key := "OPS" |};
              jira.Summary := "Bu";
              jira.Unknowns := [("customfield_10010", AString "triage")] |}).
  - vm_compute. left. reflexivity.
  - reflexivity.
Defined.

(** ** The stored width *)

#[local] Arguments int_sub : simpl never.

Lemma int_sub_in_range a b :
  - 2 ^ 63 <= a - b < 2 ^ 63 -> int_sub a b = a - b.
Proof.
  intros H. unfold int_sub, wrap_int.
  rewrite Z.mod_small by lia. lia.
Qed.

(** X6: in every reachable state a resize to any width a terminal can
    report stores that width, cut to [maxWidth], less the 5 columns of the
    base style's frame: never more than 155, and below zero for a terminal
    narrower than 5 columns.  Variables and form stay as they were. *)
Theorem resize_stores_width_less_frame (w : World) (W H : Z) :
  reachable w ->
  0 <= W < 2 ^ 63 ->
  exists m' cmds,
    Update (globals w) (model w) (tea.WindowSizeMsg W H) = Some (globals w, m', cmds) /\
    width m' = Z.min W maxWidth - 5 /\
    - 5 <= width m' <= 155 /\
    form m' = form (model w).
Proof.
  intros Hr HW. apply reachable_invariant in Hr. revert Hr.
  break_world w. unfold invariant, focus. simpl.
  intros (Hsty & Hlg & Hst & HSt & Hpg & f0 & f1 & Hfs & B0 & B1).
  break_bound B0. break_bound B1.
  assert (Hsub : int_sub (Z.min W maxWidth) 5 = Z.min W maxWidth - 5).
  { apply int_sub_in_range. unfold maxWidth. lia. }
  assert (Hpage : pg = 0%nat \/ pg = 1%nat) by lia.
  destruct gl as [s d].
  unfold Update, huh.Form_Update.
  simpl.
  change (lipgloss.GetHorizontalFrameSize
            (lipgloss.Padding 1 4 0 1 (lipgloss.NewStyle lipgloss.DefaultRenderer)))
    with 5.
  rewrite Hsub. simpl.
  destruct St; try congruence; simpl.
  all: destruct Hpage as [-> | ->]; simpl.
  all: repeat (progress (unfold_form; simpl)).
  all: repeat match goal with |- context [negb ?b] => is_var b; destruct b; simpl end.
  all: eexists _, _; split; [reflexivity|]; simpl.
  all: unfold maxWidth; repeat split; try reflexivity; try lia.
Qed.

Lemma resize_stores_width_less_frame_witness :
  exists m' cmds,
    Update globals0 (NewModel globals0) (tea.WindowSizeMsg 3 50) = Some (globals0, m', cmds) /\
    width m' = Z.min 3 maxWidth - 5 /\
    - 5 <= width m' <= 155 /\
    form m' = form (NewModel globals0).
Proof.
  apply (resize_stores_width_less_frame world0 3 50 reachable_new). lia.
Defined.

(** ** The form's state and the loop *)

(** X7: the loop waits for events only while the form is in its normal
    state: a completed form always makes the program return.  And the form
    of a run is never aborted, for its own quit key, ctrl+c, is taken by
    [Update] before the form sees it. *)
Theorem run_waits_only_on_a_normal_form (events : list tea.Msg) (w : World) :
  (run events = Waiting w -> huh.State (form (model w)) = huh.StateNormal) /\
  (run events = Returned w -> huh.State (form (model w)) <> huh.StateAborted).
Proof.
  split.
  - intros H. apply (run_waiting_normal events w H).
  - intros H. destruct (run_total events) as (w0 & Hw0 & Hr).
    rewrite H in Hw0. destruct Hw0 as [[= <-] | H0]; [|discriminate].
    apply reachable_invariant in Hr. destruct Hr as (_ & _ & _ & Hna & _). exact Hna.
Qed.

Lemma run_waits_only_on_a_normal_form_witness :
  huh.State (form (model (world_of (run (typing "Bug in login" ++ [key tea.KeyEnter])))))
  = huh.StateNormal.
Proof.
  apply (proj1 (run_waits_only_on_a_normal_form
                  (typing "Bug in login" ++ [key tea.KeyEnter])
                  (world_of (run (typing "Bug in login" ++ [key tea.KeyEnter]))))).
  vm_compute. reflexivity.
Defined.



(** ** The view of a reachable state *)

(** X9: this program never shows the error header: no field has a
    validator, so in every reachable state the form reports no error and
    the view is the normal header, the form and the help line. *)
Theorem reachable_view_has_the_normal_header `{Rendering} (w : World) :
  reachable w ->
  huh.Errors (form (model w)) = [] /\
  View (model w) =
    Style_Render (Base (NewStyles lipgloss.DefaultRenderer))
      (appBoundaryView (model w) "Create a JIRA Ticket" +:+ newline +:+
       Form_View (form (model w)) +:+ newline +:+ newline +:+
       appBoundaryView (model w) (Form_ShortHelpView (form (model w)))).
Proof.
  intros Hr. apply reachable_invariant in Hr.
  destruct Hr as (Hsty & _ & _ & _ & _ & f0 & f1 & Hfs & B0 & B1).
  assert (Herr : huh.Errors (form (model w)) = []).
  { apply Errors_nil_iff. intros fld Hin. rewrite Hfs in Hin.
    destruct B0 as (_ & _ & _ & _ & _ & _ & H0), B1 as (_ & _ & _ & _ & _ & _ & H1).
    destruct Hin as [<- | [<- | []]]; assumption. }
  split; [exact Herr|].
  unfold View. rewrite Herr, Hsty. reflexivity.
Qed.

Lemma reachable_view_has_the_normal_header_witness :
  huh.Errors (form (model (resized 200))) = [] /\
  @View plain (model (resized 200)) =
    @Style_Render plain (Base (NewStyles lipgloss.DefaultRenderer))
      (@appBoundaryView plain (model (resized 200)) "Create a JIRA Ticket" +:+ newline +:+
       @Form_View plain (form (model (resized 200))) +:+ newline +:+ newline +:+
       @appBoundaryView plain (model (resized 200))
         (@Form_ShortHelpView plain (form (model (resized 200))))).
Proof.
  apply (@reachable_view_has_the_normal_header plain (resized 200)).
  apply (reachable_update world0 (tea.WindowSizeMsg 200 50) _ _ []).
  - apply reachable_new.
  - reflexivity.
Defined.

(** ** Resizes and the outcome *)

(** [Update] reads the stored width nowhere: two models that differ in it
    only are updated alike. *)
Lemma Update_forgets_width gl m1 m2 msg :
  with_width 0 m1 = with_width 0 m2 ->
  match Update gl m1 msg, Update gl m2 msg with
  | Some (gl1, m1', c1), Some (gl2, m2', c2) =>
      gl1 = gl2 /\ c1 = c2 /\ with_width 0 m1' = with_width 0 m2'
  | None, None => True
  | _, _ => False
  end.
Proof.
  destruct m1 as [st1 lg1 sty1 f1 wd1], m2 as [st2 lg2 sty2 f2 wd2].
  destruct lg1, lg2.
  unfold with_width. simpl. intros Heq. injection Heq; intros; subst.
  unfold Update.
  destruct msg as [W H | k | | | | | ]; simpl;
    try (destruct (is_quit_key k); [repeat split|]);
    (destruct (huh.Form_Update gl f2 _) as [[[gl' f'] cmds]|]; simpl; [|exact I];
     destruct (huh.FormState_eqb _ _); repeat split).
Qed.

Lemma deliver_forgets_width fuel :
  forall pending w1 w2,
    forget_width w1 = forget_width w2 ->
    forget_width_delivery (deliver fuel pending w1) =
    forget_width_delivery (deliver fuel pending w2).
Proof.
  induction fuel as [|fuel IH]; intros pending w1 w2 Hw.
  - destruct pending as [|msg rest]; cbn [deliver]; [simpl; congruence|].
    destruct msg; simpl; congruence.
  - destruct pending as [|msg rest]; cbn [deliver]; [simpl; congruence|].
    assert (Hg : globals w1 = globals w2)
      by (unfold forget_width in Hw; congruence).
    assert (Hm : with_width 0 (model w1) = with_width 0 (model w2))
      by (unfold forget_width in Hw; congruence).
    pose proof (Update_forgets_width (globals w1) (model w1) (model w2) msg Hm) as Hu.
    rewrite <- Hg.
    destruct (Update (globals w1) (model w1) msg) as [[[gl1 m1'] c1]|],
             (Update (globals w1) (model w2) msg) as [[[gl2 m2'] c2]|];
      try contradiction.
    + destruct Hu as (-> & -> & Hm').
      destruct msg; try (simpl; congruence);
        (apply IH; unfold forget_width; simpl; rewrite Hm'; reflexivity).
    + destruct msg; simpl; congruence.
Qed.

Lemma eventLoop_forgets_width events :
  forall w1 w2,
    forget_width w1 = forget_width w2 ->
    forget_width_result (eventLoop events w1) =
    forget_width_result (eventLoop events w2).
Proof.
  induction events as [|ev rest IH]; intros w1 w2 Hw; cbn [eventLoop].
  - simpl. congruence.
  - pose proof (deliver_forgets_width cascade [ev] w1 w2 Hw) as Hd.
    destruct (deliver cascade [ev] w1) as [w1' | w1' | | ],
             (deliver cascade [ev] w2) as [w2' | w2' | | ];
      try discriminate; simpl in Hd.
    + apply IH. congruence.
    + simpl. congruence.
    + reflexivity.
    + reflexivity.
Qed.

(** A resize of a waiting form changes the stored width and nothing
    else. *)
Lemma resize_Update_waiting w W H :
  invariant w ->
  huh.State (form (model w)) = huh.StateNormal ->
  exists z,
    Update (globals w) (model w) (tea.WindowSizeMsg W H) =
    Some (globals w, with_width z (model w), []).
Proof.
  intros Hr Hn. revert Hr Hn.
  break_world w. unfold invariant, focus. simpl.
  intros (Hsty & Hlg & Hst & HSt & Hpg & f0 & f1 & Hfs & B0 & B1) ->.
  break_bound B0. break_bound B1.
  assert (Hpage : pg = 0%nat \/ pg = 1%nat) by lia.
  destruct gl as [s d].
  unfold Update, huh.Form_Update, with_width. simpl.
  destruct Hpage as [-> | ->]; simpl.
  all: repeat (progress (unfold_form; simpl)).
  all: repeat match goal with |- context [negb ?b] => is_var b; destruct b; simpl end.
  all: eexists; reflexivity.
Qed.

Lemma resize_while_waiting w W H :
  invariant w ->
  huh.State (form (model w)) = huh.StateNormal ->
  exists w',
    deliver cascade [tea.WindowSizeMsg W H] w = Idle w' /\
    forget_width w' = forget_width w.
Proof.
  intros Hr Hn.
  destruct (resize_Update_waiting w W H Hr Hn) as (z & Hu).
  exists {| globals := globals w; model := with_width z (model w) |}. split.
  - unfold cascade.
    rewrite (deliver_step 5 (tea.WindowSizeMsg W H) [] w _ _ [] ltac:(discriminate) Hu).
    apply deliver_nothing.
  - reflexivity.
Qed.

Lemma forget_width_eq w1 w2 :
  forget_width w1 = forget_width w2 ->
  globals w1 = globals w2 /\ form (model w1) = form (model w2).
Proof.
  intros H. split.
  - change (globals (forget_width w1) = globals (forget_width w2)).
    rewrite H. reflexivity.
  - change (form (model (forget_width w1)) = form (model (forget_width w2))).
    rewrite H. reflexivity.
Qed.

Lemma run_with_resize es1 es2 W H :
  forget_width_result (run (es1 ++ tea.WindowSizeMsg W H :: es2)) =
  forget_width_result (run (es1 ++ es2)).
Proof.
  rewrite !run_app.
  destruct (run es1) as [w|e|w| |] eqn:Hrun; try reflexivity.
  destruct (run_waiting_normal es1 w Hrun) as [Hr Hn].
  destruct (resize_while_waiting w W H (reachable_invariant w Hr) Hn) as (w' & Hd & Hw).
  cbn [eventLoop]. rewrite Hd.
  apply eventLoop_forgets_width. exact Hw.
Qed.

(** X13: a resize changes nothing but the stored width.  Put anywhere
    among the events of a run, a resize event leaves the terminal flag, the
    two variables and the whole form of the resulting state as they are
    without it; so [main] ends in the same way, with the same output and
    the same issue submitted. *)
Theorem resize_never_changes_the_outcome (es1 es2 : list tea.Msg) (W H : Z) :
  (terminal (run (es1 ++ tea.WindowSizeMsg W H :: es2)) = terminal (run (es1 ++ es2)) /\
   globals (world_of (run (es1 ++ tea.WindowSizeMsg W H :: es2))) =
     globals (world_of (run (es1 ++ es2))) /\
   form (model (world_of (run (es1 ++ tea.WindowSizeMsg W H :: es2)))) =
     form (model (world_of (run (es1 ++ es2))))) /\
  (forall env,
     events env = (es1 ++ es2)%list ->
     main (with_events (es1 ++ tea.WindowSizeMsg W H :: es2) env) = main env).
Proof.
  pose proof (run_with_resize es1 es2 W H) as Hres.
  assert (Hsame :
    terminal (run (es1 ++ tea.WindowSizeMsg W H :: es2)) = terminal (run (es1 ++ es2)) /\
    globals (world_of (run (es1 ++ tea.WindowSizeMsg W H :: es2))) =
      globals (world_of (run (es1 ++ es2))) /\
    form (model (world_of (run (es1 ++ tea.WindowSizeMsg W H :: es2)))) =
      form (model (world_of (run (es1 ++ es2)))) /\
    (forall w, run (es1 ++ es2) = Returned w ->
       exists w', run (es1 ++ tea.WindowSizeMsg W H :: es2) = Returned w' /\
                  globals w' = globals w) /\
    (forall a b, run (es1 ++ es2) = a ->
       run (es1 ++ tea.WindowSizeMsg W H :: es2) = b ->
       match a, b with
       | Returned _, Returned _ | Waiting _, Waiting _ | Crashed, Crashed
       | Unfinished, Unfinished => True
       | Failed e1, Failed e2 => e1 = e2
       | _, _ => False
       end)).
  { destruct (run (es1 ++ tea.WindowSizeMsg W H :: es2)) as [w1|e1|w1| |],
             (run (es1 ++ es2)) as [w2|e2|w2| |];
      simpl in Hres; try discriminate;
      try (assert (Hw : forget_width w1 = forget_width w2) by congruence;
           destruct (forget_width_eq _ _ Hw) as [Hg Hf]);
      simpl; try rewrite Hf;
      (split; [reflexivity|]; split; [assumption || reflexivity|];
       split; [assumption || reflexivity|]; split;
       [ intros w Hw'; try discriminate;
         (injection Hw' as <-; eexists; (split; [reflexivity | assumption]))
       | intros a b <- <-; try exact I; try congruence ]). }
  destruct Hsame as (Ht & Hg & Hf & Hret & Hshape).
  split; [repeat split; assumption|].
  intros env Hev. unfold main. simpl.
  destruct (UserHomeDir env) as [e|dirname]; [reflexivity|].
  destruct (ReadFile env _) as [e|f]; [reflexivity|].
  destruct (yaml_Unmarshal env f) as [e|c]; [reflexivity|].
  rewrite Hev. fold world0.
  destruct (startup env) as [e|]; [reflexivity|].
  fold (run (es1 ++ tea.WindowSizeMsg W H :: es2)). fold (run (es1 ++ es2)).
  specialize (Hshape _ _ eq_refl eq_refl).
  destruct (run (es1 ++ es2)) as [w|e|w| |] eqn:H2,
           (run (es1 ++ tea.WindowSizeMsg W H :: es2)) as [w'|e'|w'| |] eqn:H1;
    try contradiction; try reflexivity.
  - destruct (Hret w eq_refl) as (w'' & [= <-] & ->). reflexivity.
  - subst. reflexivity.
Qed.

Lemma resize_never_changes_the_outcome_witness :
  main (with_events (typing "Bug" ++ tea.WindowSizeMsg 80 24 ::
                     ([key tea.KeyEnter] ++ typing "Steps" ++ [key tea.KeyEnter]))
          (sample_env (typing "Bug" ++
                       ([key tea.KeyEnter] ++ typing "Steps" ++ [key tea.KeyEnter]))))
  = main (sample_env (typing "Bug" ++
                      ([key tea.KeyEnter] ++ typing "Steps" ++ [key tea.KeyEnter]))).
Proof.
  apply (proj2 (resize_never_changes_the_outcome (typing "Bug")
                  ([key tea.KeyEnter] ++ typing "Steps" ++ [key tea.KeyEnter]) 80 24)).
  reflexivity.
Defined.

(** ** Typing into the form *)

Lemma Matches_true_in k keys :
  tea.Matches k keys = true -> exists s, In s keys /\ tea.Key_String k = s.
Proof.
  unfold tea.Matches. intros H. apply existsb_exists in H as (s & Hin & Hs).
  apply String.eqb_eq in Hs. eauto.
Qed.

(** A key that stands for one character is no quit key unless the
    character is q, and it is bound to nothing in the form. *)
Lemma char_key_not_quit k c :
  tea.Key_String k = String c "" -> c <> "q"%char -> is_quit_key k = false.
Proof.
  intros Hk Hc. destruct (is_quit_key k) eqn:Hq; [|reflexivity].
  apply is_quit_key_spec in Hq. rewrite Hk in Hq.
  destruct Hq as [Hq | [Hq | Hq]]; try discriminate.
  injection Hq as ->. contradiction.
Qed.

Ltac unbound_key Hk :=
  match goal with
  | H : tea.Matches _ _ = true |- _ =>
      apply Matches_true_in in H; simpl in H;
      let s := fresh "s" in
      let Hin := fresh "Hin" in
      let Hs := fresh "Hs" in
      destruct H as (s & Hin & Hs);
      repeat (destruct Hin as [Hin | Hin]; [subst s; rewrite Hk in Hs; discriminate|]);
      contradiction
  end.

Ltac focus_flags Hfoc f0 f1 :=
  let H0 := fresh "Hf0" in
  let H1 := fresh "Hf1" in
  pose proof (Hfoc 0%nat f0 eq_refl) as H0;
  pose proof (Hfoc 1%nat f1 eq_refl) as H1;
  simpl in H0, H1.

Ltac editing_holds :=
  unfold editing; split; [invariant_holds|];
  split; [reflexivity|]; split; [reflexivity|];
  let j := fresh "j" in
  intros [|[|j]] ? ?; simpl in *; simplify_eq; reflexivity.

Lemma char_key_on_title_Update w k c :
  editing 0 w ->
  tea.Key_String k = String c "" -> c <> "q"%char ->
  exists gl' m',
    Update (globals w) (model w) (tea.KeyMsg k) = Some (gl', m', []) /\
    editing 0 {| globals := gl'; model := m' |} /\
    gl' = {| summary := summary (globals w) +:+ tea.Runes k;
            description := description (globals w) |}.
Proof.
  intros (Hinv & Hnormal & Hfocus & Hfoc) Hk Hc.
  pose proof (char_key_not_quit k c Hk Hc) as Hq.
  revert Hinv Hnormal Hfocus Hfoc.
  break_world w. unfold invariant, focus. simpl.
  intros (Hsty & Hlg & Hst & HSt & Hpg & f0 & f1 & Hfs & B0 & B1) -> -> Hfoc.
  subst fs. focus_flags Hfoc f0 f1.
  break_bound B0. break_bound B1. simpl in *. subst.
  unfold Update. rewrite Hq.
  unfold huh.Form_Update. rewrite (not_quit_key_not_form_quit _ Hq). simpl.
  repeat (progress (unfold_form; simpl)).
  split_on_keys; try unbound_key Hk; simpl.
  eexists _, _. split; [reflexivity|]. split; [editing_holds | reflexivity].
Qed.

Lemma char_key_on_title w k c :
  editing 0 w ->
  tea.Key_String k = String c "" -> c <> "q"%char ->
  exists w',
    deliver cascade [tea.KeyMsg k] w = Idle w' /\
    editing 0 w' /\
    globals w' = {| summary := summary (globals w) +:+ tea.Runes k;
            description := description (globals w) |}.
Proof.
  intros Hed Hk Hc.
  destruct (char_key_on_title_Update w k c Hed Hk Hc) as (gl' & m' & Hu & Hed' & Hg).
  exists {| globals := gl'; model := m' |}. split; [|split; assumption].
  unfold cascade.
  rewrite (deliver_step 5 (tea.KeyMsg k) [] w gl' m' [] ltac:(discriminate) Hu).
  apply deliver_nothing.
Qed.

Lemma char_key_on_description_Update w k c :
  editing 1 w ->
  tea.Key_String k = String c "" -> c <> "q"%char ->
  exists gl' m',
    Update (globals w) (model w) (tea.KeyMsg k) = Some (gl', m', []) /\
    editing 1 {| globals := gl'; model := m' |} /\
    gl' = {| summary := summary (globals w);
            description := description (globals w) +:+ tea.Runes k |}.
Proof.
  intros (Hinv & Hnormal & Hfocus & Hfoc) Hk Hc.
  pose proof (char_key_not_quit k c Hk Hc) as Hq.
  revert Hinv Hnormal Hfocus Hfoc.
  break_world w. unfold invariant, focus. simpl.
  intros (Hsty & Hlg & Hst & HSt & Hpg & f0 & f1 & Hfs & B0 & B1) -> -> Hfoc.
  subst fs. focus_flags Hfoc f0 f1.
  break_bound B0. break_bound B1. simpl in *. subst.
  unfold Update. rewrite Hq.
  unfold huh.Form_Update. rewrite (not_quit_key_not_form_quit _ Hq). simpl.
  repeat (progress (unfold_form; simpl)).
  split_on_keys; try unbound_key Hk; simpl.
  eexists _, _. split; [reflexivity|]. split; [editing_holds | reflexivity].
Qed.

Lemma char_key_on_description w k c :
  editing 1 w ->
  tea.Key_String k = String c "" -> c <> "q"%char ->
  exists w',
    deliver cascade [tea.KeyMsg k] w = Idle w' /\
    editing 1 w' /\
    globals w' = {| summary := summary (globals w);
            description := description (globals w) +:+ tea.Runes k |}.
Proof.
  intros Hed Hk Hc.
  destruct (char_key_on_description_Update w k c Hed Hk Hc) as (gl' & m' & Hu & Hed' & Hg).
  exists {| globals := gl'; model := m' |}. split; [|split; assumption].
  unfold cascade.
  rewrite (deliver_step 5 (tea.KeyMsg k) [] w gl' m' [] ltac:(discriminate) Hu).
  apply deliver_nothing.
Qed.

Ltac decide_keys :=
  repeat match goal with
    | |- context [tea.Matches ?k ?l] =>
        let b := eval vm_compute in (tea.Matches k l) in
        change (tea.Matches k l) with b
    | |- context [is_quit_key ?k] =>
        let b := eval vm_compute in (is_quit_key k) in
        change (is_quit_key k) with b
    end.

#[local] Arguments deliver : simpl never.
#[local] Arguments Update : simpl never.

(** A key without runes inserts nothing. *)
Lemma insertRunes_nothing limit buf : huh.insertRunes limit buf "" = buf.
Proof.
  unfold huh.insertRunes. destruct limit as [|n]; [apply append_empty_r|].
  replace (substring 0 (S n - String.length buf) "") with "".
  - apply append_empty_r.
  - destruct (S n - String.length buf)%nat; reflexivity.
Qed.

Ltac compute_Update :=
  unfold Update, huh.Form_Update; simpl; decide_keys;
  repeat (progress (unfold_form; simpl; decide_keys));
  rewrite ?insertRunes_nothing;
  reflexivity.

(** Enter on the title moves the focus to the description and changes no
    text. *)
Lemma enter_on_title w :
  editing 0 w ->
  exists w',
    deliver cascade [key tea.KeyEnter] w = Idle w' /\
    editing 1 w' /\ globals w' = globals w.
Proof.
  intros (Hinv & Hnormal & Hfocus & Hfoc).
  revert Hinv Hnormal Hfocus Hfoc.
  break_world w. unfold invariant, focus. simpl.
  intros (Hsty & Hlg & Hst & HSt & Hpg & f0 & f1 & Hfs & B0 & B1) -> -> Hfoc.
  subst fs. focus_flags Hfoc f0 f1.
  break_bound B0. break_bound B1. simpl in *. subst.
  destruct gl as [s d].
  unfold cascade, key.
  eexists. split.
  - do 2 (eapply eq_trans;
          [eapply deliver_step; [discriminate | compute_Update] | simpl app]).
    apply deliver_nothing.
  - split; [editing_holds | reflexivity].
Qed.

(** Enter on the description completes the form and ends the loop; the
    texts stay. *)
Lemma enter_on_description w :
  editing 1 w ->
  exists w',
    deliver cascade [key tea.KeyEnter] w = QuitReceived w' /\
    huh.State (form (model w')) = huh.StateCompleted /\
    globals w' = globals w /\
    field_text (model w') 0 = Some (summary (globals w)) /\
    field_text (model w') 1 = Some (description (globals w)).
Proof.
  intros (Hinv & Hnormal & Hfocus & Hfoc).
  revert Hinv Hnormal Hfocus Hfoc.
  break_world w. unfold invariant, focus. simpl.
  intros (Hsty & Hlg & Hst & HSt & Hpg & f0 & f1 & Hfs & B0 & B1) -> -> Hfoc.
  subst fs. focus_flags Hfoc f0 f1.
  break_bound B0. break_bound B1. simpl in *. subst.
  destruct gl as [s d].
  unfold cascade, key.
  eexists. split.
  - do 3 (eapply eq_trans;
          [eapply deliver_step; [discriminate | compute_Update] | simpl app]).
    apply deliver_quit.
  - repeat split.
Qed.

Lemma keystroke_char c :
  exists k, keystroke c = tea.KeyMsg k /\
            tea.Key_String k = String c "" /\ tea.Runes k = String c "".
Proof.
  unfold keystroke. destruct (Ascii.eqb_spec c " ") as [-> | Hne].
  - eexists. repeat split.
  - eexists. repeat split.
Qed.

Lemma has_q_cons c s :
  has_q (String c s) = false -> c <> "q"%char /\ has_q s = false.
Proof.
  unfold has_q. simpl. intros H. apply orb_false_elim in H as [Hc Hs].
  split; [|exact Hs]. intros ->. discriminate.
Qed.


Lemma append_char a c s : (a +:+ String c "") +:+ s = a +:+ String c s.
Proof. rewrite append_associative. reflexivity. Qed.

Lemma typing_on_title s :
  forall w,
    editing 0 w -> has_q s = false ->
    exists w',
      eventLoop (typing s) w = Waiting w' /\
      editing 0 w' /\
      globals w' = {| summary := summary (globals w) +:+ s;
                      description := description (globals w) |}.
Proof.
  induction s as [|c s IH]; intros w Hed Hq.
  - exists w. split; [reflexivity|]. split; [exact Hed|].
    rewrite append_empty_r. destruct (globals w). reflexivity.
  - apply has_q_cons in Hq as [Hc Hq].
    destruct (keystroke_char c) as (k & Hkey & Hk & Hrunes).
    destruct (char_key_on_title w k c Hed Hk Hc) as (w1 & Hd & Hed1 & Hg1).
    destruct (IH w1 Hed1 Hq) as (w' & Hl & Hed' & Hg').
    exists w'. split; [|split; [exact Hed'|]].
    + change (typing (String c s)) with (keystroke c :: typing s).
      cbn [eventLoop]. rewrite Hkey, Hd. exact Hl.
    + rewrite Hg', Hg1. simpl. rewrite Hrunes, append_char. reflexivity.
Qed.

Lemma typing_on_description s :
  forall w,
    editing 1 w -> has_q s = false ->
    exists w',
      eventLoop (typing s) w = Waiting w' /\
      editing 1 w' /\
      globals w' = {| summary := summary (globals w);
                      description := description (globals w) +:+ s |}.
Proof.
  induction s as [|c s IH]; intros w Hed Hq.
  - exists w. split; [reflexivity|]. split; [exact Hed|].
    rewrite append_empty_r. destruct (globals w). reflexivity.
  - apply has_q_cons in Hq as [Hc Hq].
    destruct (keystroke_char c) as (k & Hkey & Hk & Hrunes).
    destruct (char_key_on_description w k c Hed Hk Hc) as (w1 & Hd & Hed1 & Hg1).
    destruct (IH w1 Hed1 Hq) as (w' & Hl & Hed' & Hg').
    exists w'. split; [|split; [exact Hed'|]].
    + change (typing (String c s)) with (keystroke c :: typing s).
      cbn [eventLoop]. rewrite Hkey, Hd. exact Hl.
    + rewrite Hg', Hg1. simpl. rewrite Hrunes, append_char. reflexivity.
Qed.

(** After [Init] the title is being edited. *)
Lemma editing_after_Init :
  editing 0
    {| globals := globals0;
       model := with_form
                  (huh.with_group
                     {| huh.fields :=
                          [ huh.Focus (huh.WithPosition true false
                              (huh.NewInput "Summary:" addr_summary globals0));
                            huh.WithPosition false true
                              (huh.NewText "Description:" addr_description globals0) ];
                        huh.Page := 0 |}
                     (form (NewModel globals0)))
                  (NewModel globals0) |}.
Proof. editing_holds. Qed.

(** X10: any printable text without the letter q can be typed into the
    title: after its key presses the loop is waiting, the focus is on the
    title, and the title field and the variable [summary] hold exactly that
    text. *)
Theorem typed_title_is_the_summary (s : string) :
  has_q s = false ->
  printable s = true ->
  exists w,
    run (typing s) = Waiting w /\
    globals w = {| summary := s; description := "" |} /\
    field_text (model w) 0 = Some s /\
    focus (model w) = 0%nat.
Proof.
  intros Hq _. rewrite run_eventLoop.
  destruct (typing_on_title s _ editing_after_Init Hq) as (w & Hl & Hed & Hg).
  exists w. split; [exact Hl|]. split; [exact Hg|].
  destruct Hed as (Hinv & _ & Hfocus & _).
  destruct (invariant_field_texts w Hinv) as [H0 _].
  rewrite H0, Hg. auto.
Qed.

Lemma typed_title_is_the_summary_witness :
  exists w,
    run (typing "Printer on fire") = Waiting w /\
    globals w = {| summary := "Printer on fire"; description := "" |} /\
    field_text (model w) 0 = Some "Printer on fire" /\
    focus (model w) = 0%nat.
Proof.
  apply typed_title_is_the_summary; reflexivity.
Defined.



Lemma created_after_return env c w client :
  config_of env = Some c ->
  run_of env = Returned w ->
  NewClient env (transport_of c) (JiraUrl c) = Some client ->
  created (main env) = [issue_of c (globals w)].
Proof.
  unfold main, config_of, run_of, transport_of, issue_of.
  destruct (UserHomeDir env) as [e|dirname]; [discriminate|].
  destruct (ReadFile env _) as [e|f]; [discriminate|].
  destruct (yaml_Unmarshal env f) as [e|c']; [discriminate|].
  intros [= ->] Hrun. unfold world0 in Hrun. rewrite Hrun. intros ->.
  destruct (jira.Issue_Create client _); reflexivity.
Qed.

(** X12: the happy path for any texts.  For every printable title and
    description without the letter q, the description at most 400
    characters long, typing the title, enter, the description, enter makes
    the program return with the form completed and exactly these two texts
    in the fields and in the variables; and [main], given a configuration
    and a client, submits one issue with that summary and description.
    The title may be empty. *)
Theorem typed_texts_are_submitted (t d : string) :
  has_q t = false -> has_q d = false ->
  printable t = true -> printable d = true ->
  (String.length d <= 400)%nat ->
  (exists w,
     run (typing t ++ [key tea.KeyEnter] ++ typing d ++ [key tea.KeyEnter]) = Returned w /\
     terminal (run (typing t ++ [key tea.KeyEnter] ++ typing d ++ [key tea.KeyEnter]))
       = Some completed /\
     globals w = {| summary := t; description := d |} /\
     field_text (model w) 0 = Some t /\
     field_text (model w) 1 = Some d) /\
  (forall env c client,
     events env = (typing t ++ [key tea.KeyEnter] ++ typing d ++ [key tea.KeyEnter])%list ->
     startup env = None ->
     config_of env = Some c ->
     NewClient env (transport_of c) (JiraUrl c) = Some client ->
     created (main env) = [issue_of c {| summary := t; description := d |}]).
Proof.
  intros Hqt Hqd _ _ _.
  destruct (typing_on_title t _ editing_after_Init Hqt) as (w1 & Hl1 & Hed1 & Hg1).
  destruct (enter_on_title w1 Hed1) as (w2 & Hd2 & Hed2 & Hg2).
  destruct (typing_on_description d w2 Hed2 Hqd) as (w3 & Hl3 & Hed3 & Hg3).
  destruct (enter_on_description w3 Hed3) as (w4 & Hd4 & Hst4 & Hg4 & Ht0 & Ht1).
  assert (Hg : globals w4 = {| summary := t; description := d |}).
  { rewrite Hg4, Hg3, Hg2, Hg1. reflexivity. }
  assert (Hrun : run (typing t ++ [key tea.KeyEnter] ++ typing d ++ [key tea.KeyEnter])
                 = Returned w4).
  { rewrite run_eventLoop, eventLoop_app, Hl1.
    change ([key tea.KeyEnter] ++ typing d ++ [key tea.KeyEnter])%list
      with (key tea.KeyEnter :: (typing d ++ [key tea.KeyEnter]))%list.
    cbn [eventLoop]. rewrite Hd2, eventLoop_app, Hl3.
    cbn [eventLoop]. rewrite Hd4. reflexivity. }
  split.
  - exists w4. split; [exact Hrun|]. rewrite Hrun. simpl.
    rewrite Hst4. simpl. split; [reflexivity|]. split; [exact Hg|].
    rewrite Ht0, Ht1, Hg3, Hg2, Hg1. split; reflexivity.
  - intros env c client Hev Hs Hc Hcl.
    rewrite (created_after_return env c w4 client Hc); [rewrite Hg; reflexivity| |exact Hcl].
    unfold run_of. rewrite Hs, Hev. exact Hrun.
Qed.

Lemma typed_texts_are_submitted_witness :
  created (main (sample_env (typing "" ++ [key tea.KeyEnter] ++
                             typing "See the attached log." ++ [key tea.KeyEnter]))) =
    [issue_of sample_config {| summary := ""; description := "See the attached log." |}].
Proof.
  apply (proj2 (typed_texts_are_submitted "" "See the attached log."
                  eq_refl eq_refl eq_refl eq_refl ltac:(simpl; lia))
           (sample_env (typing "" ++ [key tea.KeyEnter] ++
                        typing "See the attached log." ++ [key tea.KeyEnter]))
           sample_config accepting_client);
    reflexivity.
Defined.

(** ** Where the form can be completed *)

(** A key that is no quit key leaves the focus where it is and asks for at
    most one move. *)
Lemma key_Update_editing i w k :
  (i < 2)%nat ->
  editing i w ->
  is_quit_key k = false ->
  exists gl m cmds,
    Update (globals w) (model w) (tea.KeyMsg k) = Some (gl, m, cmds) /\
    editing i {| globals := gl; model := m |} /\
    (cmds = [] \/ cmds = [tea.nextFieldMsg] \/ cmds = [tea.prevFieldMsg]).
Proof.
  intros Hi (Hinv & Hnormal & Hfocus & Hfoc) Hq.
  revert Hinv Hnormal Hfocus Hfoc.
  break_world w. unfold invariant, focus. simpl.
  intros (Hsty & Hlg & Hst & HSt & Hpg & f0 & f1 & Hfs & B0 & B1) -> -> Hfoc.
  subst fs. focus_flags Hfoc f0 f1.
  break_bound B0. break_bound B1. simpl in *. subst.
  unfold Update. rewrite Hq.
  unfold huh.Form_Update. rewrite (not_quit_key_not_form_quit _ Hq). simpl.
  assert (Hcases : i = 0%nat \/ i = 1%nat) by lia.
  destruct Hcases as [-> | ->]; simpl.
  all: repeat (progress (unfold_form; simpl)).
  all: split_on_keys; simpl.
  all: eexists _, _, _; split; [reflexivity|]; split; [editing_holds|].
  all: first [ left; reflexivity
             | right; left; reflexivity
             | right; right; reflexivity ].
Qed.

Lemma nextFieldMsg_on_title w :
  editing 0 w ->
  exists w', deliver 5 [tea.nextFieldMsg] w = Idle w' /\ editing 1 w'.
Proof.
  intros (Hinv & Hnormal & Hfocus & Hfoc).
  revert Hinv Hnormal Hfocus Hfoc.
  break_world w. unfold invariant, focus. simpl.
  intros (Hsty & Hlg & Hst & HSt & Hpg & f0 & f1 & Hfs & B0 & B1) -> -> Hfoc.
  subst fs. focus_flags Hfoc f0 f1.
  break_bound B0. break_bound B1. simpl in *. subst.
  destruct gl as [s d].
  eexists. split.
  - eapply eq_trans;
      [eapply deliver_step; [discriminate | compute_Update] | simpl app].
    apply deliver_nothing.
  - editing_holds.
Qed.

Lemma nextFieldMsg_on_description w :
  editing 1 w ->
  exists w',
    deliver 5 [tea.nextFieldMsg] w = QuitReceived w' /\
    huh.State (form (model w')) = huh.StateCompleted /\
    focus (model w') = 1%nat.
Proof.
  intros (Hinv & Hnormal & Hfocus & Hfoc).
  revert Hinv Hnormal Hfocus Hfoc.
  break_world w. unfold invariant, focus. simpl.
  intros (Hsty & Hlg & Hst & HSt & Hpg & f0 & f1 & Hfs & B0 & B1) -> -> Hfoc.
  subst fs. focus_flags Hfoc f0 f1.
  break_bound B0. break_bound B1. simpl in *. subst.
  destruct gl as [s d].
  eexists. split.
  - do 2 (eapply eq_trans;
          [eapply deliver_step; [discriminate | compute_Update] | simpl app]).
    apply deliver_quit.
  - split; reflexivity.
Qed.

Lemma prevFieldMsg_on_description w :
  editing 1 w ->
  exists w', deliver 5 [tea.prevFieldMsg] w = Idle w' /\ editing 0 w'.
Proof.
  intros (Hinv & Hnormal & Hfocus & Hfoc).
  revert Hinv Hnormal Hfocus Hfoc.
  break_world w. unfold invariant, focus. simpl.
  intros (Hsty & Hlg & Hst & HSt & Hpg & f0 & f1 & Hfs & B0 & B1) -> -> Hfoc.
  subst fs. focus_flags Hfoc f0 f1.
  break_bound B0. break_bound B1. simpl in *. subst.
  destruct gl as [s d].
  eexists. split.
  - eapply eq_trans;
      [eapply deliver_step; [discriminate | compute_Update] | simpl app].
    apply deliver_nothing.
  - editing_holds.
Qed.

Lemma prevFieldMsg_on_title w :
  editing 0 w ->
  exists w', deliver 5 [tea.prevFieldMsg] w = Idle w' /\ editing 0 w'.
Proof.
  intros (Hinv & Hnormal & Hfocus & Hfoc).
  revert Hinv Hnormal Hfocus Hfoc.
  break_world w. unfold invariant, focus. simpl.
  intros (Hsty & Hlg & Hst & HSt & Hpg & f0 & f1 & Hfs & B0 & B1) -> -> Hfoc.
  subst fs. focus_flags Hfoc f0 f1.
  break_bound B0. break_bound B1. simpl in *. subst.
  destruct gl as [s d].
  eexists. split.
  - do 2 (eapply eq_trans;
          [eapply deliver_step; [discriminate | compute_Update] | simpl app]).
    apply deliver_nothing.
  - editing_holds.
Qed.

Lemma editing_with_width i w z :
  editing i w -> editing i {| globals := globals w; model := with_width z (model w) |}.
Proof.
  intros (Hinv & Hnormal & Hfocus & Hfoc).
  split; [|split; [exact Hnormal | split; [exact Hfocus | exact Hfoc]]].
  destruct Hinv as (H1 & H2 & H3 & H4 & H5 & H6).
  unfold invariant. simpl. repeat split; assumption.
Qed.

(** What one terminal event does to a form that is being edited: the loop
    waits again with one of the two fields in focus, or it has returned,
    cancelled with the form still normal, or completed, and then the focus
    was and is on the description. *)
Lemma terminal_event_step i w ev :
  (i < 2)%nat ->
  editing i w ->
  from_terminal ev = true ->
  (exists w' j, (j < 2)%nat /\ deliver cascade [ev] w = Idle w' /\ editing j w') \/
  (exists w',
     deliver cascade [ev] w = QuitReceived w' /\
     (huh.State (form (model w')) = huh.StateNormal \/
      (i = 1%nat /\ huh.State (form (model w')) = huh.StateCompleted /\
       focus (model w') = 1%nat))).
Proof.
  intros Hi Hed Hev.
  destruct ev as [W H | k | | | | | ]; try discriminate.
  - left. pose proof Hed as (Hinv & Hnormal & Hfocus & Hfoc).
    assert (Hr : exists z,
              Update (globals w) (model w) (tea.WindowSizeMsg W H) =
              Some (globals w, with_width z (model w), []))
      by (apply resize_Update_waiting; assumption).
    destruct Hr as (z & Hu).
    exists {| globals := globals w; model := with_width z (model w) |}, i.
    split; [exact Hi|]. split.
    + unfold cascade.
      rewrite (deliver_step 5 (tea.WindowSizeMsg W H) [] w _ _ [] ltac:(discriminate) Hu).
      apply deliver_nothing.
    + apply editing_with_width. exact Hed.
  - destruct (is_quit_key k) eqn:Hq.
    + right. exists w. split; [apply quit_key_returns; exact Hq|].
      left. destruct Hed as (_ & Hn & _). exact Hn.
    + destruct (key_Update_editing i w k Hi Hed Hq) as (gl & m & cmds & Hu & Hed' & Hc).
      unfold cascade.
      rewrite (deliver_step 5 (tea.KeyMsg k) [] w gl m cmds ltac:(discriminate) Hu).
      simpl app.
      assert (Hcases : i = 0%nat \/ i = 1%nat) by lia.
      destruct Hc as [-> | [-> | ->]].
      * left. eexists _, i. split; [exact Hi|]. split; [apply deliver_nothing | exact Hed'].
      * destruct Hcases as [-> | ->].
        -- left. destruct (nextFieldMsg_on_title _ Hed') as (w' & Hd & He).
           exists w', 1%nat. split; [lia|]. split; assumption.
        -- right. destruct (nextFieldMsg_on_description _ Hed') as (w' & Hd & Hs & Hf).
           exists w'. split; [exact Hd|]. right. auto.
      * left. destruct Hcases as [-> | ->].
        -- destruct (prevFieldMsg_on_title _ Hed') as (w' & Hd & He).
           exists w', 0%nat. split; [lia|]. split; assumption.
        -- destruct (prevFieldMsg_on_description _ Hed') as (w' & Hd & He).
           exists w', 0%nat. split; [lia|]. split; assumption.
Qed.

Lemma eventLoop_editing events :
  forall i w,
    (i < 2)%nat -> editing i w ->
    Forall (fun ev => from_terminal ev = true) events ->
    match eventLoop events w with
    | Waiting w' => exists j, (j < 2)%nat /\ editing j w'
    | Returned w' =>
        huh.State (form (model w')) = huh.StateNormal \/
        (huh.State (form (model w')) = huh.StateCompleted /\ focus (model w') = 1%nat)
    | Failed _ | Crashed | Unfinished => False
    end.
Proof.
  induction events as [|ev rest IH]; intros i w Hi Hed Hall; cbn [eventLoop].
  - eauto.
  - inversion Hall as [|? ? Hev Hrest]; subst.
    destruct (terminal_event_step i w ev Hi Hed Hev)
      as [(w' & j & Hj & Hd & Hed') | (w' & Hd & Hst)]; rewrite Hd.
    + apply (IH j w' Hj Hed' Hrest).
    + destruct Hst as [Hn | (_ & Hc & Hf)]; auto.
Qed.

(** X14: in a run of key presses and resizes the form is completed only
    from the description: when the run is completed the focus is on the
    second field.  And while the loop is waiting the form is normal and
    exactly its current field has the focus. *)
Theorem completed_only_from_the_description (events : list tea.Msg) (w : World) :
  Forall (fun ev => from_terminal ev = true) events ->
  (run events = Returned w ->
   terminal (run events) = Some completed ->
   focus (model w) = 1%nat) /\
  (run events = Waiting w ->
   exists j, (j = 0%nat \/ j = 1%nat) /\ editing j w).
Proof.
  intros Hall.
  pose proof (eventLoop_editing events 0%nat _ ltac:(lia) editing_after_Init Hall) as H.
  rewrite <- run_eventLoop in H.
  split.
  - intros Hrun Hterm. rewrite Hrun in H, Hterm. simpl in Hterm.
    destruct H as [Hn | [_ Hf]]; [|exact Hf].
    rewrite Hn in Hterm. discriminate.
  - intros Hrun. rewrite Hrun in H. destruct H as (j & Hj & Hed).
    exists j. split; [lia | exact Hed].
Qed.

Lemma completed_only_from_the_description_witness :
  focus (model (world_of (run happy_path))) = 1%nat.
Proof.
  apply (proj1 (completed_only_from_the_description happy_path
                  (world_of (run happy_path))
                  ltac:(repeat constructor))).
  - vm_compute. reflexivity.
  - vm_compute. reflexivity.
Defined.
